(** * The item access list of the social-network backend

    A shallow embedding of the two [AccessListConcept] classes of the
    repository and of the document collection they are written against,
    followed by the properties of the access registry.

    - [ById]   embeds [server/concepts/accessList.ts], whose records are
               addressed by their own [_id];
    - [ByItem] embeds the second [accessList.ts] of the repository, whose
               records carry an [item] field and which adds [canView] and
               the bulk operations.

    Every method is an [async] function whose only effects are calls on one
    [DocCollection]; a method is embedded as a tree of such calls ([Async]),
    which is run either alone ([run]) or interleaved with another request
    at its [await]s ([interleave]). *)

From stdpp Require Import base list strings pretty.

Open Scope string_scope.
Open Scope list_scope.

(** ** Identifiers *)

(** A MongoDB [ObjectId] is a 12-byte number. *)
Definition ObjectId := N.

(** [ObjectId.toString()] of the driver renders the identifier in digits;
    all the code relies on is that two identifiers have the same rendering
    exactly when they are equal, which [toString_inj] records below. *)
Definition toString (o : ObjectId) : string := pretty o.

(** ** Documents *)

(** [interface ItemAccessDoc extends BaseDoc].  The [item] field exists in
    the second variant only; documents created by the first have none. *)
Module Doc.
Record ItemAccessDoc := mkDoc {
  _id : ObjectId;
  item : option ObjectId;
  owner : ObjectId;
  editors : list ObjectId;
  viewers : list ObjectId;
  dateCreated : nat;
  dateUpdated : nat
}.
End Doc.
Export Doc.

(** The value stored under a field name, when the document has that field. *)
Inductive FieldValue :=
| One (o : ObjectId)
| Many (os : list ObjectId).

Definition getField (d : ItemAccessDoc) (k : string) : option FieldValue :=
  if String.eqb k "_id" then Some (One (_id d))
  else if String.eqb k "item" then One <$> item d
  else if String.eqb k "owner" then Some (One (owner d))
  else if String.eqb k "editors" then Some (Many (editors d))
  else if String.eqb k "viewers" then Some (Many (viewers d))
  else None.

(** ** Filters and updates *)

(** A filter is an object literal: a list of entries, all of which must
    hold.  [{ _id }] is [[Field "_id" _id]]; [$or] takes single-field
    alternatives, as everywhere in this code. *)
Inductive Entry :=
| Field (k : string) (v : ObjectId)
| Or (alts : list (string * ObjectId)).

Definition Filter := list Entry.

(** Equality against a field: a scalar field must equal the value, an array
    field must contain it, and a document without the field does not
    match. *)
Definition fieldMatches (d : ItemAccessDoc) (k : string) (v : ObjectId) : bool :=
  match getField d k with
  | Some (One o) => bool_decide (o = v)
  | Some (Many os) => bool_decide (v ∈ os)
  | None => false
  end.

Definition entryMatches (d : ItemAccessDoc) (e : Entry) : bool :=
  match e with
  | Field k v => fieldMatches d k v
  | Or alts => existsb (λ kv, fieldMatches d kv.1 kv.2) alts
  end.

Definition matches (f : Filter) (d : ItemAccessDoc) : bool :=
  forallb (entryMatches d) f.

(** [Partial<ItemAccessDoc>] as the code passes it to [updateOne]: the new
    [editors], the new [viewers], or both. *)
Record Update := mkUpdate {
  setEditors : option (list ObjectId);
  setViewers : option (list ObjectId)
}.

Definition applyUpdate (u : Update) (t : nat) (d : ItemAccessDoc) : ItemAccessDoc :=
  {| _id := _id d;
     item := item d;
     owner := owner d;
     editors := default (editors d) (setEditors u);
     viewers := default (viewers d) (setViewers u);
     dateCreated := dateCreated d;
     dateUpdated := t |}.

(** ** The collection *)

(** Modelled from the spec: [DocCollection] ([framework/doc]) is not among
    the sources.  The registry "owns one record per protected item", each
    with an "engine-assigned identifier, stable for the record's lifetime";
    [createOne] "persists one new record", [readOne] answers with the record
    a filter selects or with nothing, [updateOne] sets the given fields of
    that record and advances its [updatedAt], [deleteOne] removes it, and
    [readMany] lists the selected records, here "most-recently-updated
    first".  The collection keeps its documents in insertion order, hands out
    fresh identifiers from a counter, and stamps documents from a logical
    clock. *)
Record DocCollection := mkCollection {
  docs : list ItemAccessDoc;
  nextId : ObjectId;
  clock : nat
}.

Definition emptyCollection : DocCollection :=
  {| docs := []; nextId := 0%N; clock := 0 |}.

Definition findDoc (f : Filter) (l : list ItemAccessDoc) : option (nat * ItemAccessDoc) :=
  list_find (λ d, matches f d = true) l.

Definition createOne (i : option ObjectId) (o : ObjectId) (es vs : list ObjectId)
    (s : DocCollection) : ObjectId * DocCollection :=
  let d := {| _id := nextId s; item := i; owner := o; editors := es; viewers := vs;
              dateCreated := clock s; dateUpdated := clock s |} in
  (nextId s,
   {| docs := docs s ++ [d]; nextId := N.succ (nextId s); clock := S (clock s) |}).

Definition readOne (f : Filter) (s : DocCollection) : option ItemAccessDoc :=
  snd <$> findDoc f (docs s).

Definition updateOne (f : Filter) (u : Update) (s : DocCollection) : DocCollection :=
  match findDoc f (docs s) with
  | Some (i, d) =>
      {| docs := <[i := applyUpdate u (clock s) d]> (docs s);
         nextId := nextId s; clock := S (clock s) |}
  | None => s
  end.

Definition deleteOne (f : Filter) (s : DocCollection) : DocCollection :=
  match findDoc f (docs s) with
  | Some (i, _) => {| docs := delete i (docs s); nextId := nextId s; clock := clock s |}
  | None => s
  end.

(** The [sort] option of [readMany]; the code only ever asks for
    [{ dateUpdated: -1 }]. *)
Inductive Sort :=
| dateUpdatedDescending.

(** [sort: { dateUpdated: -1 }]: a stable insertion sort, latest first. *)
Fixpoint insertByDate (d : ItemAccessDoc) (l : list ItemAccessDoc) : list ItemAccessDoc :=
  match l with
  | [] => [d]
  | x :: l' =>
      if Nat.leb (dateUpdated x) (dateUpdated d) then d :: l
      else x :: insertByDate d l'
  end.

Definition sortByDateDesc (l : list ItemAccessDoc) : list ItemAccessDoc :=
  foldr insertByDate [] l.

Definition readMany (f : Filter) (sort : option Sort) (s : DocCollection)
  : list ItemAccessDoc :=
  let found := filter (λ d, matches f d = true) (docs s) in
  match sort with
  | Some dateUpdatedDescending => sortByDateDesc found
  | None => found
  end.

(** ** JavaScript arrays *)

(** [a.includes(x)] on an array of strings. *)
Definition includes (l : list string) (x : string) : bool := bool_decide (x ∈ l).

(** [a.some(p)]. *)
Definition some {A} (l : list A) (p : A → bool) : bool := existsb p l.

(** [a.findIndex(p)]: the first index whose element satisfies [p], or -1. *)
Definition findIndex {A} (l : list A) (p : A → bool) : Z :=
  match list_find (λ x, p x = true) l with
  | Some (i, _) => Z.of_nat i
  | None => (-1)%Z
  end.

(** [a.splice(start, 1)] on a copy: a negative [start] counts from the end,
    and a [start] past the end deletes nothing. *)
Definition splice1 {A} (l : list A) (start : Z) : list A :=
  let len := Z.of_nat (length l) in
  let i := if (start <? 0)%Z then Z.max (len + start) 0 else Z.min start len in
  delete (Z.to_nat i) l.

(** ** Errors and replies *)

(** [NotFoundError] and the subclasses of [NotAllowedError] the two classes
    throw. *)
Inductive Error :=
| NotFoundError (message : string)
| ItemOwnerNotMatchError (user _id : ObjectId)
| ItemViewerNotMatchError (user _id : ObjectId)
| ItemEditorNotMatchError (user _id : ObjectId)
| AccessRestrictedError (user _id : ObjectId).

Definition isNotFound (e : Error) : bool :=
  match e with NotFoundError _ => true | _ => false end.

Definition isNotAllowed (e : Error) : bool := negb (isNotFound e).

(** [{ msg }]. *)
Record Msg := mkMsg { msg : string }.

(** [{ msg, item }], the reply of [addItem]. *)
Record Added := mkAdded { addedMsg : string; addedItem : option ItemAccessDoc }.

(** ** Asynchronous methods *)

(** An [async] method is a tree: it resolves, rejects, or awaits one call on
    the collection and goes on with the answer. *)
Inductive Async (A : Type) : Type :=
| Resolve (a : A)
| Reject (e : Error)
| AwaitCreateOne (i : option ObjectId) (o : ObjectId) (es vs : list ObjectId)
    (k : ObjectId → Async A)
| AwaitReadOne (f : Filter) (k : option ItemAccessDoc → Async A)
| AwaitReadMany (f : Filter) (sort : option Sort) (k : list ItemAccessDoc → Async A)
| AwaitUpdateOne (f : Filter) (u : Update) (k : Async A)
| AwaitDeleteOne (f : Filter) (k : Async A).

Arguments Resolve {A} a.
Arguments Reject {A} e.
Arguments AwaitCreateOne {A} i o es vs k.
Arguments AwaitReadOne {A} f k.
Arguments AwaitReadMany {A} f sort k.
Arguments AwaitUpdateOne {A} f u k.
Arguments AwaitDeleteOne {A} f k.

Fixpoint bind {A B} (p : Async A) (h : A → Async B) : Async B :=
  match p with
  | Resolve a => h a
  | Reject e => Reject e
  | AwaitCreateOne i o es vs k => AwaitCreateOne i o es vs (λ r, bind (k r) h)
  | AwaitReadOne f k => AwaitReadOne f (λ r, bind (k r) h)
  | AwaitReadMany f o k => AwaitReadMany f o (λ r, bind (k r) h)
  | AwaitUpdateOne f u k => AwaitUpdateOne f u (bind k h)
  | AwaitDeleteOne f k => AwaitDeleteOne f (bind k h)
  end.

(** [try { p } catch (e) { h e }]. *)
Fixpoint tryCatch {A} (p : Async A) (h : Error → Async A) : Async A :=
  match p with
  | Resolve a => Resolve a
  | Reject e => h e
  | AwaitCreateOne i o es vs k => AwaitCreateOne i o es vs (λ r, tryCatch (k r) h)
  | AwaitReadOne f k => AwaitReadOne f (λ r, tryCatch (k r) h)
  | AwaitReadMany f o k => AwaitReadMany f o (λ r, tryCatch (k r) h)
  | AwaitUpdateOne f u k => AwaitUpdateOne f u (tryCatch k h)
  | AwaitDeleteOne f k => AwaitDeleteOne f (tryCatch k h)
  end.

Global Instance Async_ret : MRet Async := @Resolve.
Global Instance Async_bind : MBind Async := λ A B h p, bind p h.

(** [this.accessList]: the calls of a method on its collection. *)
Module accessList.
Definition createOne (i : option ObjectId) (o : ObjectId) (es vs : list ObjectId)
  : Async ObjectId := AwaitCreateOne i o es vs Resolve.
Definition readOne (f : Filter) : Async (option ItemAccessDoc) :=
  AwaitReadOne f Resolve.
Definition readMany (f : Filter) (sort : option Sort) : Async (list ItemAccessDoc) :=
  AwaitReadMany f sort Resolve.
Definition updateOne (f : Filter) (u : Update) : Async unit :=
  AwaitUpdateOne f u (Resolve ()).
Definition deleteOne (f : Filter) : Async unit :=
  AwaitDeleteOne f (Resolve ()).
End accessList.

(** How a request ends. *)
Inductive Outcome (A : Type) : Type :=
| Fulfilled (a : A)
| Rejected (e : Error).

Arguments Fulfilled {A} a.
Arguments Rejected {A} e.

(** A request that runs alone, from its call to its end. *)
Fixpoint run {A} (p : Async A) (s : DocCollection) : Outcome A * DocCollection :=
  match p with
  | Resolve a => (Fulfilled a, s)
  | Reject e => (Rejected e, s)
  | AwaitCreateOne i o es vs k =>
      let '(r, s') := createOne i o es vs s in run (k r) s'
  | AwaitReadOne f k => run (k (readOne f s)) s
  | AwaitReadMany f o k => run (k (readMany f o s)) s
  | AwaitUpdateOne f u k => run k (updateOne f u s)
  | AwaitDeleteOne f k => run k (deleteOne f s)
  end.

(** One call on the collection: what a request does between two [await]s. *)
Definition step {A} (p : Async A) (s : DocCollection) : Async A * DocCollection :=
  match p with
  | Resolve a => (Resolve a, s)
  | Reject e => (Reject e, s)
  | AwaitCreateOne i o es vs k =>
      let '(r, s') := createOne i o es vs s in (k r, s')
  | AwaitReadOne f k => (k (readOne f s), s)
  | AwaitReadMany f o k => (k (readMany f o s), s)
  | AwaitUpdateOne f u k => (k, updateOne f u s)
  | AwaitDeleteOne f k => (k, deleteOne f s)
  end.

Definition settled {A} (p : Async A) : option (Outcome A) :=
  match p with
  | Resolve a => Some (Fulfilled a)
  | Reject e => Some (Rejected e)
  | _ => None
  end.

(** Two requests in flight on one collection: the schedule says, call after
    call, which of the two goes next ([true] for the first). *)
Fixpoint interleave {A B} (sched : list bool) (p : Async A) (q : Async B)
    (s : DocCollection) : Async A * Async B * DocCollection :=
  match sched with
  | [] => (p, q, s)
  | true :: sched' => let '(p', s') := step p s in interleave sched' p' q s'
  | false :: sched' => let '(q', s') := step q s in interleave sched' p q' s'
  end.

(** ** [server/concepts/accessList.ts] *)

Module ById.

Definition getItems (query : Filter) : Async (list ItemAccessDoc) :=
  items ← accessList.readMany query (Some dateUpdatedDescending);
  mret items.

Definition getItemsByOwner (owner : ObjectId) : Async (list ItemAccessDoc) :=
  getItems [Field "owner" owner].

Definition addItem (owner : ObjectId) (editors viewers : option (list ObjectId))
  : Async Added :=
  let editors := default [] editors in
  let viewers := default [] viewers in
  _id ← accessList.createOne None owner editors viewers;
  item ← accessList.readOne [Field "_id" _id];
  mret {| addedMsg := "Item successfully added!"; addedItem := item |}.

Definition deleteItem (_id : ObjectId) : Async Msg :=
  accessList.deleteOne [Field "_id" _id];;
  mret {| msg := "Item deleted successfully!" |}.

Definition isOwner (user _id : ObjectId) : Async unit :=
  item ← accessList.readOne [Field "_id" _id];
  match item with
  | None => Reject (NotFoundError ("Item " +:+ toString _id +:+ " does not exist!"))
  | Some item =>
      if negb (String.eqb (toString (Doc.owner item)) (toString user))
      then Reject (ItemOwnerNotMatchError user _id)
      else mret ()
  end.

Definition isViewer (user _id : ObjectId) : Async unit :=
  item ← accessList.readOne [Field "_id" _id];
  match item with
  | None => Reject (NotFoundError ("Item " +:+ toString _id +:+ " does not exist!"))
  | Some item =>
      if negb (includes (toString <$> Doc.viewers item) (toString user))
      then Reject (ItemViewerNotMatchError user _id)
      else mret ()
  end.

Definition isEditor (user _id : ObjectId) : Async unit :=
  item ← accessList.readOne [Field "_id" _id];
  match item with
  | None => Reject (NotFoundError ("Item " +:+ toString _id +:+ " does not exist!"))
  | Some item =>
      if negb (includes (toString <$> Doc.editors item) (toString user))
      then Reject (ItemEditorNotMatchError user _id)
      else mret ()
  end.

Definition setToViewer (_id user : ObjectId) : Async Msg :=
  tryCatch
    (isViewer user _id;;
     mret {| msg := toString user +:+ " is already a viewer of " +:+ toString _id |})
    (λ e,
      item ← accessList.readOne [Field "_id" _id];
      match item with
      | None => Reject (NotFoundError ("Item " +:+ toString _id +:+ " does not exist!"))
      | Some item =>
          let newViewers := Doc.viewers item ++ [user] in
          accessList.updateOne [Field "_id" _id]
            {| setEditors := None; setViewers := Some newViewers |};;
          mret {| msg := "Viewers successfully updated!" |}
      end).

Definition setToEditor (_id user : ObjectId) : Async Msg :=
  tryCatch
    (isEditor user _id;;
     mret {| msg := toString user +:+ " is already an editor of " +:+ toString _id |})
    (λ e,
      item ← accessList.readOne [Field "_id" _id];
      match item with
      | None => Reject (NotFoundError ("Item " +:+ toString _id +:+ " does not exist!"))
      | Some item =>
          let newEditors := Doc.editors item ++ [user] in
          accessList.updateOne [Field "_id" _id]
            {| setEditors := Some newEditors; setViewers := None |};;
          mret {| msg := "Editors successfully updated!" |}
      end).

(** The method ends without a [return] when neither index is found: its
    promise then resolves to [undefined], here [None]. *)
Definition removeAccess (_id user : ObjectId) : Async (option Msg) :=
  item ← accessList.readOne
    [Field "_id" _id; Or [("viewers", user); ("editors", user)]];
  match item with
  | None =>
      mret (Some {| msg := toString user +:+ " is already restricted from seeing "
                           +:+ toString _id |})
  | Some item =>
      let userString := toString user in
      let userViewerIndex :=
        findIndex (toString <$> Doc.viewers item)
                  (λ viewerString, String.eqb viewerString userString) in
      if negb (userViewerIndex =? -1)%Z then
        let newViewers := splice1 (Doc.viewers item) userViewerIndex in
        accessList.updateOne [Field "_id" _id]
          {| setEditors := None; setViewers := Some newViewers |};;
        mret (Some {| msg := "Viewers successfully updated!" |})
      else
        let userEditorIndex :=
          findIndex (toString <$> Doc.editors item)
                    (λ editorString, String.eqb editorString userString) in
        if negb (userEditorIndex =? -1)%Z then
          let newEditors := splice1 (Doc.editors item) userEditorIndex in
          accessList.updateOne [Field "_id" _id]
            {| setEditors := Some newEditors; setViewers := None |};;
          mret (Some {| msg := "Viewers successfully updated!" |})
        else mret None
  end.

End ById.

(** ** The second [accessList.ts], with an [item] field *)

Module ByItem.

Definition getItems (query : Filter) : Async (list ItemAccessDoc) :=
  items ← accessList.readMany query (Some dateUpdatedDescending);
  mret items.

Definition getItemsByOwner (owner : ObjectId) : Async (list ItemAccessDoc) :=
  getItems [Field "owner" owner].

Definition addItem (item owner : ObjectId) (editors viewers : option (list ObjectId))
  : Async Added :=
  let editors := default [] editors in
  let viewers := default [] viewers in
  _id ← accessList.createOne (Some item) owner editors viewers;
  item ← accessList.readOne [Field "_id" _id];
  mret {| addedMsg := "Item successfully added!"; addedItem := item |}.

Definition deleteItem (item : ObjectId) : Async Msg :=
  accessList.deleteOne [Field "item" item];;
  mret {| msg := "Item deleted successfully!" |}.

(** [for (const item of items) { ... }]. *)
Fixpoint forOf {A} (items : list A) (body : A → Async unit) : Async unit :=
  match items with
  | [] => mret ()
  | item :: items' => body item;; forOf items' body
  end.

Definition setToViewerAllItems (owner user : ObjectId) : Async Msg :=
  let userString := toString user in
  items ← getItemsByOwner owner;
  forOf items (λ item,
    if negb (some (Doc.viewers item)
                  (λ viewer, String.eqb (toString viewer) userString))
    then
      let newViewers := Doc.viewers item ++ [user] in
      accessList.updateOne [Field "_id" (Doc._id item)]
        {| setEditors := None; setViewers := Some newViewers |}
    else mret ());;
  mret {| msg := "Access to all items successfully updated!" |}.

Definition isOwner (user itemId : ObjectId) : Async unit :=
  item ← accessList.readOne [Field "item" itemId];
  match item with
  | None => Reject (NotFoundError ("Item " +:+ toString itemId +:+ " does not exist!"))
  | Some item =>
      if negb (String.eqb (toString (Doc.owner item)) (toString user))
      then Reject (ItemOwnerNotMatchError user itemId)
      else mret ()
  end.

(** [{ itemId }] is the object [{ itemId: itemId }]: it asks for a field
    named [itemId], where [isOwner] asks for [item]. *)
Definition isViewer (user itemId : ObjectId) : Async unit :=
  item ← accessList.readOne [Field "itemId" itemId];
  match item with
  | None => Reject (NotFoundError ("Item " +:+ toString itemId +:+ " does not exist!"))
  | Some item =>
      if negb (includes (toString <$> Doc.viewers item) (toString user))
      then Reject (ItemViewerNotMatchError user itemId)
      else mret ()
  end.

Definition isEditor (user itemId : ObjectId) : Async unit :=
  item ← accessList.readOne [Field "itemId" itemId];
  match item with
  | None => Reject (NotFoundError ("Item " +:+ toString itemId +:+ " does not exist!"))
  | Some item =>
      if negb (includes (toString <$> Doc.editors item) (toString user))
      then Reject (ItemEditorNotMatchError user itemId)
      else mret ()
  end.

Definition setToViewer (_id user : ObjectId) : Async Msg :=
  tryCatch
    (isViewer user _id;;
     mret {| msg := toString user +:+ " is already a viewer of " +:+ toString _id |})
    (λ e,
      item ← accessList.readOne [Field "_id" _id];
      match item with
      | None => Reject (NotFoundError ("Item " +:+ toString _id +:+ " does not exist!"))
      | Some item =>
          let newViewers := Doc.viewers item ++ [user] in
          accessList.updateOne [Field "_id" _id]
            {| setEditors := None; setViewers := Some newViewers |};;
          mret {| msg := "Viewers successfully updated!" |}
      end).

Definition setToEditor (_id user : ObjectId) : Async Msg :=
  tryCatch
    (isEditor user _id;;
     mret {| msg := toString user +:+ " is already an editor of " +:+ toString _id |})
    (λ e,
      item ← accessList.readOne [Field "_id" _id];
      match item with
      | None => Reject (NotFoundError ("Item " +:+ toString _id +:+ " does not exist!"))
      | Some item =>
          let newEditors := Doc.editors item ++ [user] in
          accessList.updateOne [Field "_id" _id]
            {| setEditors := Some newEditors; setViewers := None |};;
          mret {| msg := "Editors successfully updated!" |}
      end).

Definition removeAccessAllItems (owner user : ObjectId) : Async Msg :=
  items ← accessList.readMany
    [Field "owner" owner; Or [("viewers", user); ("editors", user)]] None;
  let userString := toString user in
  forOf items (λ item,
    let userViewerIndex :=
      findIndex (toString <$> Doc.viewers item)
                (λ viewerString, String.eqb viewerString userString) in
    if negb (userViewerIndex =? -1)%Z then
      let newViewers := splice1 (Doc.viewers item) userViewerIndex in
      accessList.updateOne [Field "_id" (Doc._id item)]
        {| setEditors := None; setViewers := Some newViewers |}
    else
      let userEditorIndex :=
        findIndex (toString <$> Doc.editors item)
                  (λ editorString, String.eqb editorString userString) in
      let newEditors := splice1 (Doc.editors item) userEditorIndex in
      accessList.updateOne [Field "_id" (Doc._id item)]
        {| setEditors := Some newEditors; setViewers := None |});;
  mret {| msg := "Access for " +:+ toString user +:+ " was successfully updated!" |}.

Definition removeAccess (itemId user : ObjectId) : Async Msg :=
  item ← accessList.readOne
    [Field "itemId" itemId; Or [("viewers", user); ("editors", user)]];
  match item with
  | None =>
      mret {| msg := toString user +:+ " is already restricted from seeing "
                     +:+ toString itemId |}
  | Some item =>
      let userString := toString user in
      let userViewerIndex :=
        findIndex (toString <$> Doc.viewers item)
                  (λ viewerString, String.eqb viewerString userString) in
      if negb (userViewerIndex =? -1)%Z then
        let newViewers := splice1 (Doc.viewers item) userViewerIndex in
        accessList.updateOne [Field "itemId" itemId]
          {| setEditors := None; setViewers := Some newViewers |};;
        mret {| msg := "Viewers successfully updated!" |}
      else
        let userEditorIndex :=
          findIndex (toString <$> Doc.editors item)
                    (λ editorString, String.eqb editorString userString) in
        let newEditors := splice1 (Doc.editors item) userEditorIndex in
        accessList.updateOne [Field "itemId" itemId]
          {| setEditors := Some newEditors; setViewers := None |};;
        mret {| msg := "Editors successfully updated!" |}
  end.

Definition hasItemAccess (item : ItemAccessDoc) (user : ObjectId) : bool :=
  let userString := toString user in
  let isOwner := String.eqb (toString (Doc.owner item)) userString in
  let isViewer := includes (toString <$> Doc.viewers item) userString in
  let isEditor := includes (toString <$> Doc.editors item) userString in
  isOwner || isViewer || isEditor.

Definition canView (user itemId : ObjectId) : Async unit :=
  item ← accessList.readOne [Field "itemId" itemId];
  match item with
  | None => Reject (NotFoundError ("Item " +:+ toString itemId +:+ " does not exist!"))
  | Some item =>
      if negb (hasItemAccess item user)
      then Reject (AccessRestrictedError user itemId)
      else mret ()
  end.

End ByItem.

(** ** Well-formed collections *)

(** The collection never hands out an identifier twice: the identifiers in
    use are distinct and below the counter. *)
Definition uniqueIds (s : DocCollection) : Prop :=
  NoDup (_id <$> docs s) ∧ Forall (λ d, (_id d < nextId s)%N) (docs s).

Global Instance uniqueIds_dec s : Decision (uniqueIds s).
Proof. unfold uniqueIds. apply _. Defined.

(** The record the registry holds for an identifier. *)
Definition record (_id : ObjectId) (s : DocCollection) : option ItemAccessDoc :=
  readOne [Field "_id" _id] s.

(** The error every method throws for an identifier it finds no record
    for. *)
Definition notFound (_id : ObjectId) : Error :=
  NotFoundError ("Item " +:+ toString _id +:+ " does not exist!").

(** ** Observations and operations of the registry *)

(** Who owns which record. *)
Definition owners (s : DocCollection) : list (ObjectId * ObjectId) :=
  (λ d, (_id d, owner d)) <$> docs s.

(** The two role sets of every record. *)
Definition roleSets (s : DocCollection)
  : list (ObjectId * list ObjectId * list ObjectId) :=
  (λ d, (_id d, editors d, viewers d)) <$> docs s.

Definition roleSetsNoDup (s : DocCollection) : Prop :=
  Forall (λ d, NoDup (editors d) ∧ NoDup (viewers d)) (docs s).

Global Instance roleSetsNoDup_dec s : Decision (roleSetsNoDup s).
Proof. unfold roleSetsNoDup. apply _. Defined.

(** The three mutations of the role sets of one record. *)
Inductive RoleOp :=
| SetToViewer (_id user : ObjectId)
| SetToEditor (_id user : ObjectId)
| RemoveAccess (_id user : ObjectId).

Definition execRole (op : RoleOp) (s : DocCollection) : DocCollection :=
  match op with
  | SetToViewer i u => (run (ById.setToViewer i u) s).2
  | SetToEditor i u => (run (ById.setToEditor i u) s).2
  | RemoveAccess i u => (run (ById.removeAccess i u) s).2
  end.

Definition execRoles (ops : list RoleOp) (s : DocCollection) : DocCollection :=
  foldl (λ s op, execRole op s) s ops.

(** The record in the reply of [addItem]. *)
Definition addedItem_of (r : Outcome Added * DocCollection) : option ItemAccessDoc :=
  match r.1 with
  | Fulfilled reply => addedItem reply
  | Rejected _ => None
  end.

(** ** Schedules *)

(** The schedules in which the two requests do not overlap: all the calls
    of one, then all the calls of the other. *)
Definition oneAfterTheOther (sched : list bool) : Prop :=
  ∃ b n m, sched = replicate n b ++ replicate m (negb b).

(** A record created by [addItem(owner)], without editors or viewers, in an
    empty registry: its identifier is [0]. *)
Definition freshRecord : DocCollection :=
  (run (ById.addItem 10%N None None) emptyCollection).2.

(** A record whose only viewer is user [20]. *)
Definition viewerOnly : DocCollection :=
  (run (ById.addItem 10%N None (Some [20%N])) emptyCollection).2.

(** ** Registry states *)

(** The operations that change the registry: those of the first class, and
    of the second class the creation and deletion by [item], its
    [removeAccess] and the two bulk operations.  ([setToViewer] and
    [setToEditor] of the second class are studied apart.) *)
Inductive Op :=
| AddItem (owner : ObjectId) (editors viewers : option (list ObjectId))
| DeleteItem (_id : ObjectId)
| Role (op : RoleOp)
| AddItemFor (item owner : ObjectId) (editors viewers : option (list ObjectId))
| DeleteItemFor (item : ObjectId)
| RemoveAccessFor (itemId user : ObjectId)
| SetToViewerAllItems (owner user : ObjectId)
| RemoveAccessAllItems (owner user : ObjectId).

Definition exec (op : Op) (s : DocCollection) : DocCollection :=
  match op with
  | AddItem o es vs => (run (ById.addItem o es vs) s).2
  | DeleteItem i => (run (ById.deleteItem i) s).2
  | Role op => execRole op s
  | AddItemFor it o es vs => (run (ByItem.addItem it o es vs) s).2
  | DeleteItemFor it => (run (ByItem.deleteItem it) s).2
  | RemoveAccessFor it u => (run (ByItem.removeAccess it u) s).2
  | SetToViewerAllItems o u => (run (ByItem.setToViewerAllItems o u) s).2
  | RemoveAccessAllItems o u => (run (ByItem.removeAccessAllItems o u) s).2
  end.

(** The registry after a sequence of operations, from the empty one, each
    operation running alone, from its call to its end, before the next. *)
Definition reach (ops : list Op) : DocCollection :=
  foldl (λ s op, exec op s) emptyCollection ops.

(** The initial role sets a caller hands to [addItem] have no duplicates. *)
Definition suppliesNoDup (op : Op) : Prop :=
  match op with
  | AddItem _ es vs | AddItemFor _ _ es vs =>
      NoDup (default [] es) ∧ NoDup (default [] vs)
  | _ => True
  end.

Global Instance suppliesNoDup_dec op : Decision (suppliesNoDup op).
Proof. destruct op; simpl; apply _. Defined.

(** ** Registries of the second class *)

(** Item [7], owned by user [10], whose only viewer is user [20]; the record
    gets the identifier [0]. *)
Definition viewerOnlyItem : DocCollection :=
  (run (ByItem.addItem 7%N 10%N None (Some [20%N])) emptyCollection).2.

(** Item [7], owned by user [10], without editors or viewers. *)
Definition freshItem : DocCollection :=
  (run (ByItem.addItem 7%N 10%N None None) emptyCollection).2.

(** Item [7], owned by user [10]; user [20] is both editor and viewer. *)
Definition viewerAndEditorItem : DocCollection :=
  (run (ByItem.addItem 7%N 10%N (Some [20%N]) (Some [20%N])) emptyCollection).2.


(** ** Further observations *)

Global Instance ItemAccessDoc_eq_dec : EqDecision ItemAccessDoc.
Proof. solve_decision. Defined.

(** [a] without its first entry equal to [u], as [findIndex] and [splice]
    compute it in [removeAccess]. *)
Definition withoutFirst (u : ObjectId) (l : list ObjectId) : list ObjectId :=
  splice1 l (findIndex l (λ x, bool_decide (x = u))).

(** The record a role operation addresses. *)
Definition roleOpTarget (op : RoleOp) : ObjectId :=
  match op with
  | SetToViewer i _ | SetToEditor i _ | RemoveAccess i _ => i
  end.

(** The viewers [setToViewerAllItems(owner, user)] leaves in a record. *)
Definition viewersGranted (o u : ObjectId) (d : ItemAccessDoc) : list ObjectId :=
  if bool_decide (owner d = o) && negb (bool_decide (u ∈ viewers d))
  then viewers d ++ [u] else viewers d.

(** The viewers and the editors [removeAccessAllItems(owner, user)] leaves in
    a record: one viewer entry less, or else one editor entry less. *)
Definition viewersRevoked (o u : ObjectId) (d : ItemAccessDoc) : list ObjectId :=
  if bool_decide (owner d = o) && bool_decide (u ∈ viewers d)
  then withoutFirst u (viewers d) else viewers d.

Definition editorsRevoked (o u : ObjectId) (d : ItemAccessDoc) : list ObjectId :=
  if bool_decide (owner d = o) && negb (bool_decide (u ∈ viewers d))
     && bool_decide (u ∈ editors d)
  then withoutFirst u (editors d) else editors d.

(** Two records of the second class, items [7] and [8], both owned by user
    [10]; user [20] views the first and edits the second. *)
Definition twoItems : DocCollection :=
  (run (ByItem.addItem 8%N 10%N (Some [20%N]) None)
     (run (ByItem.addItem 7%N 10%N None (Some [20%N])) emptyCollection).2).2.

(** A listing in which no document was updated later than one before it. *)
Fixpoint latestFirst (l : list ItemAccessDoc) : Prop :=
  match l with
  | [] => True
  | x :: l' => Forall (λ y, (dateUpdated y ≤ dateUpdated x)%nat) l' ∧ latestFirst l'
  end.

(** The schedules of two [setToViewer] calls in which both calls have read
    the record, twice each, before either writes it: four reads in any order,
    then the two writes in either order. *)
Definition readsBeforeWrites (reads writes : list bool) : Prop :=
  reads ≡ₚ [true; true; false; false] ∧ writes ≡ₚ [true; false].

(** The user of the call that writes last: the first call's [u1] when the
    schedule ends with its turn, else the second call's [u2]. *)
Definition lastWriter (writes : list bool) (u1 u2 : ObjectId) : ObjectId :=
  match last writes with
  | Some true => u1
  | _ => u2
  end.

(** * Properties *)

(** ** Identifiers and arrays *)

Lemma toString_inj a b : toString a = toString b → a = b.
Proof. unfold toString. apply (inj pretty). Qed.

Lemma eqb_toString a b : String.eqb (toString a) (toString b) = bool_decide (a = b).
Proof.
  destruct (String.eqb_spec (toString a) (toString b)) as [E|E].
  - apply toString_inj in E. by rewrite bool_decide_eq_true_2.
  - rewrite bool_decide_eq_false_2; [done|]. intros ->. by apply E.
Qed.

Lemma includes_toString (l : list ObjectId) u :
  includes (toString <$> l) (toString u) = bool_decide (u ∈ l).
Proof.
  unfold includes. apply bool_decide_ext. rewrite list_elem_of_fmap. split.
  - intros (y & E & Hy). apply toString_inj in E. by subst.
  - intros H. by exists u.
Qed.

Lemma some_toString (l : list ObjectId) u :
  some l (λ x, String.eqb (toString x) (toString u)) = bool_decide (u ∈ l).
Proof.
  unfold some. induction l as [|x l IH]; cbn [existsb].
  - symmetry. apply bool_decide_eq_false_2. by intros ?%elem_of_nil.
  - rewrite IH, eqb_toString.
    destruct (decide (x = u)) as [->|Hne].
    + rewrite (bool_decide_eq_true_2 (u = u)) by done.
      rewrite (bool_decide_eq_true_2 (u ∈ u :: l)) by left. done.
    + rewrite (bool_decide_eq_false_2 (x = u)) by done. simpl.
      apply bool_decide_ext. rewrite elem_of_cons.
      split; [by right | by intros [->|?]].
Qed.

(** The index [findIndex] computes on the rendered array is the first
    position of the identifier itself. *)
Lemma findIndex_toString (l : list ObjectId) u :
  findIndex (toString <$> l) (λ s, String.eqb s (toString u))
  = findIndex l (λ x, bool_decide (x = u)).
Proof.
  unfold findIndex. rewrite list_find_fmap.
  rewrite (list_find_ext _ (λ x, bool_decide (x = u) = true) l).
  - by destruct (list_find _ l) as [[i x]|].
  - intros x. simpl. by rewrite eqb_toString.
Qed.

Lemma findIndex_absent (l : list ObjectId) u :
  u ∉ l → findIndex l (λ x, bool_decide (x = u)) = (-1)%Z.
Proof.
  intros Hu. unfold findIndex.
  destruct (list_find _ l) as [[i x]|] eqn:E; [|done].
  apply list_find_Some in E as (Hi & Hx & _).
  apply bool_decide_eq_true_1 in Hx. subst x.
  destruct Hu. by eapply list_elem_of_lookup_2.
Qed.

Lemma findIndex_present (l : list ObjectId) u :
  u ∈ l →
  ∃ i, findIndex l (λ x, bool_decide (x = u)) = Z.of_nat i ∧ l !! i = Some u.
Proof.
  intros Hu. unfold findIndex.
  destruct (list_find_elem_of (λ x, bool_decide (x = u) = true) l u Hu) as [[i x] E].
  { by apply bool_decide_eq_true_2. }
  rewrite E. exists i. split; [done|].
  apply list_find_Some in E as (Hi & Hx & _).
  apply bool_decide_eq_true_1 in Hx. by subst x.
Qed.

Lemma findIndex_ge_m1 {A} (l : list A) p : (-1 ≤ findIndex l p)%Z.
Proof. unfold findIndex. destruct (list_find _ l) as [[i x]|]; lia. Qed.

Lemma findIndex_pushed (l : list ObjectId) u :
  u ∉ l → findIndex (l ++ [u]) (λ x, bool_decide (x = u)) = Z.of_nat (length l).
Proof.
  intros Hu. unfold findIndex. rewrite list_find_app_r.
  - simpl. rewrite decide_True by (by apply bool_decide_eq_true_2). simpl.
    done.
  - apply list_find_None, Forall_forall. intros x Hx Hp.
    apply bool_decide_eq_true_1 in Hp. by subst.
Qed.

Lemma splice1_sublist {A} (l : list A) z : splice1 l z `sublist_of` l.
Proof. unfold splice1. apply sublist_delete. Qed.

Lemma splice1_NoDup {A} (l : list A) z : NoDup l → NoDup (splice1 l z).
Proof. intros H. eapply sublist_NoDup; [done | apply splice1_sublist]. Qed.

Lemma delete_past_end {A} (l : list A) i : (length l ≤ i)%nat → delete i l = l.
Proof.
  intros H. rewrite delete_take_drop, take_ge, drop_ge by lia. apply app_nil_r.
Qed.

Lemma splice1_index {A} (l : list A) (i : nat) :
  splice1 l (Z.of_nat i) = delete i l.
Proof.
  unfold splice1. destruct (Z.ltb_spec (Z.of_nat i) 0); [lia|].
  destruct (decide (i ≤ length l)%nat).
  - f_equal. lia.
  - replace (Z.to_nat _) with (length l) by lia.
    rewrite !delete_past_end; [done|lia|lia].
Qed.

Lemma splice1_pushed {A} (l : list A) x :
  splice1 (l ++ [x]) (Z.of_nat (length l)) = l.
Proof.
  rewrite splice1_index. induction l as [|y l IH]; simpl; [done|]. by rewrite IH.
Qed.


Lemma findIndex_found (l : list ObjectId) u :
  negb (findIndex l (λ x, bool_decide (x = u)) =? -1)%Z = bool_decide (u ∈ l).
Proof.
  destruct (decide (u ∈ l)) as [Hu|Hu].
  - destruct (findIndex_present l u Hu) as (i & -> & _).
    rewrite bool_decide_eq_true_2 by done.
    destruct (Z.eqb_spec (Z.of_nat i) (-1)); [lia|done].
  - rewrite findIndex_absent by done. by rewrite bool_decide_eq_false_2.
Qed.

(** ** Filters *)

Lemma matches_id id d : matches [Field "_id" id] d = bool_decide (_id d = id).
Proof. unfold matches. simpl. apply andb_true_r. Qed.

Lemma matches_item v d : matches [Field "item" v] d = bool_decide (item d = Some v).
Proof.
  unfold matches, entryMatches, fieldMatches, getField. simpl.
  destruct (item d) as [i|]; simpl.
  - rewrite andb_true_r. apply bool_decide_ext. split; congruence.
  - done.
Qed.

Lemma matches_owner o d : matches [Field "owner" o] d = bool_decide (owner d = o).
Proof. unfold matches. simpl. apply andb_true_r. Qed.

(** No document has a field named [itemId]. *)
Lemma matches_itemId v rest d : matches (Field "itemId" v :: rest) d = false.
Proof. reflexivity. Qed.

Lemma matches_id_roles id u d :
  matches [Field "_id" id; Or [("viewers", u); ("editors", u)]] d
  = bool_decide (_id d = id) && (bool_decide (u ∈ viewers d) || bool_decide (u ∈ editors d)).
Proof. unfold matches. simpl. by rewrite orb_false_r, andb_true_r. Qed.

Lemma matches_owner_roles o u d :
  matches [Field "owner" o; Or [("viewers", u); ("editors", u)]] d
  = bool_decide (owner d = o) && (bool_decide (u ∈ viewers d) || bool_decide (u ∈ editors d)).
Proof. unfold matches. simpl. by rewrite orb_false_r, andb_true_r. Qed.

Lemma findDoc_itemId v rest l : findDoc (Field "itemId" v :: rest) l = None.
Proof.
  unfold findDoc. apply list_find_None, Forall_forall. intros d _.
  by rewrite matches_itemId.
Qed.

Lemma readOne_itemId v rest s : readOne (Field "itemId" v :: rest) s = None.
Proof. unfold readOne. by rewrite findDoc_itemId. Qed.

Lemma updateOne_itemId v rest u s : updateOne (Field "itemId" v :: rest) u s = s.
Proof. unfold updateOne. by rewrite findDoc_itemId. Qed.

(** ** The collection *)

Lemma findDoc_Some f l i d :
  findDoc f l = Some (i, d) → l !! i = Some d ∧ matches f d = true.
Proof. intros H. apply list_find_Some in H as (? & ? & _). done. Qed.

Lemma readOne_Some f s d :
  readOne f s = Some d → d ∈ docs s ∧ matches f d = true.
Proof.
  unfold readOne. destruct (findDoc f (docs s)) as [[i x]|] eqn:E; [|done].
  intros [= <-]. apply findDoc_Some in E as [Hi Hm].
  split; [by eapply list_elem_of_lookup_2 | done].
Qed.

Lemma readOne_None f s :
  readOne f s = None ↔ ∀ d, d ∈ docs s → matches f d = false.
Proof.
  unfold readOne, findDoc. destruct (list_find _ (docs s)) as [[i x]|] eqn:E.
  - split; [done|]. intros H. apply list_find_Some in E as (Hi & Hm & _).
    apply list_elem_of_lookup_2 in Hi. rewrite (H _ Hi) in Hm. done.
  - split; [|done]. intros _ d Hd.
    apply list_find_None in E. rewrite Forall_forall in E.
    specialize (E d Hd). by destruct (matches f d).
Qed.

Lemma readOne_id_Some id s d :
  readOne [Field "_id" id] s = Some d → d ∈ docs s ∧ _id d = id.
Proof.
  intros H. apply readOne_Some in H as [Hd Hm]. split; [done|].
  rewrite matches_id in Hm. by apply bool_decide_eq_true_1 in Hm.
Qed.

(** What [updateOne] writes is read back by the same filter when the update
    leaves the filter's verdict on the document unchanged, as every update of
    role sets under an [_id] filter does. *)
Lemma findDoc_insert f l i d d' :
  findDoc f l = Some (i, d) → matches f d' = true →
  findDoc f (<[i := d']> l) = Some (i, d').
Proof.
  intros H Hm. apply list_find_Some in H as (Hi & Hd & Hlt).
  apply list_find_Some. split; [|split; [done|]].
  - apply list_lookup_insert_eq. by eapply lookup_lt_Some.
  - intros j y Hj Hji. rewrite list_lookup_insert_ne in Hj by lia. by eapply Hlt.
Qed.

Lemma matches_id_applyUpdate id u t d :
  matches [Field "_id" id] (applyUpdate u t d) = matches [Field "_id" id] d.
Proof. by rewrite !matches_id. Qed.

Lemma readOne_updateOne_id id u s :
  readOne [Field "_id" id] (updateOne [Field "_id" id] u s)
  = applyUpdate u (clock s) <$> readOne [Field "_id" id] s.
Proof.
  unfold readOne, updateOne.
  destruct (findDoc _ (docs s)) as [[i d]|] eqn:E; simpl.
  - erewrite findDoc_insert; [done|done|].
    rewrite matches_id_applyUpdate. by apply findDoc_Some in E as [_ ?].
  - by rewrite E.
Qed.

Lemma updateOne_None f u s : readOne f s = None → updateOne f u s = s.
Proof.
  unfold readOne, updateOne. by destruct (findDoc f (docs s)) as [[i d]|].
Qed.

Lemma deleteOne_None f s : readOne f s = None → deleteOne f s = s.
Proof.
  unfold readOne, deleteOne. by destruct (findDoc f (docs s)) as [[i d]|].
Qed.


Lemma uniqueIds_empty : uniqueIds emptyCollection.
Proof. split; [constructor | constructor]. Qed.

Lemma uniqueIds_createOne i o es vs s :
  uniqueIds s → uniqueIds (createOne i o es vs s).2.
Proof.
  intros [Hnd Hlt]. split; simpl.
  - rewrite fmap_app. simpl. apply NoDup_app. split; [done|]. split.
    + intros x Hx ->%list_elem_of_singleton.
      apply list_elem_of_fmap in Hx as (d & E & Hd).
      rewrite Forall_forall in Hlt. specialize (Hlt d Hd). lia.
    + apply NoDup_singleton.
  - apply Forall_app. split.
    + eapply Forall_impl; [done|]. simpl. intros. lia.
    + constructor; [simpl; lia | constructor].
Qed.

Lemma uniqueIds_updateOne f u s : uniqueIds s → uniqueIds (updateOne f u s).
Proof.
  intros [Hnd Hlt]. unfold updateOne.
  destruct (findDoc f (docs s)) as [[i d]|] eqn:E; [|done].
  apply findDoc_Some in E as [Hi _]. split; simpl.
  - rewrite list_fmap_insert. simpl.
    rewrite list_insert_id; [done|]. by rewrite list_lookup_fmap, Hi.
  - apply Forall_insert; [done|]. simpl.
    rewrite Forall_forall in Hlt. apply Hlt. by eapply list_elem_of_lookup_2.
Qed.

Lemma uniqueIds_deleteOne f s : uniqueIds s → uniqueIds (deleteOne f s).
Proof.
  intros [Hnd Hlt]. unfold deleteOne.
  destruct (findDoc f (docs s)) as [[i d]|] eqn:E; [|done].
  split; simpl.
  - rewrite list_fmap_delete. eapply sublist_NoDup; [done | apply sublist_delete].
  - by apply Forall_delete.
Qed.

(** Whatever a request does, it leaves the collection well formed. *)
Lemma uniqueIds_run {A} (p : Async A) s : uniqueIds s → uniqueIds (run p s).2.
Proof.
  revert s. induction p as [a|e|i o es vs k IH|f k IH|f o k IH|f u k IH|f k IH];
    intros s Hs; simpl; try done.
  - apply IH. by apply (uniqueIds_createOne i o es vs).
  - by apply IH.
  - by apply IH.
  - by apply IH, uniqueIds_updateOne.
  - by apply IH, uniqueIds_deleteOne.
Qed.

Lemma record_unique s d :
  uniqueIds s → d ∈ docs s → record (_id d) s = Some d.
Proof.
  intros [Hnd _] Hd. unfold record, readOne, findDoc.
  apply list_elem_of_lookup_1 in Hd as [i Hi].
  assert (list_find (λ x, matches [Field "_id" (_id d)] x = true) (docs s)
          = Some (i, d)) as ->; [|done].
  apply list_find_Some. split; [done|]. split.
  - rewrite matches_id. by apply bool_decide_eq_true_2.
  - intros j y Hj Hji Hm. rewrite matches_id in Hm.
    apply bool_decide_eq_true_1 in Hm.
    assert (j = i); [|lia].
    eapply NoDup_lookup; [done| |].
    + rewrite list_lookup_fmap, Hj. simpl. by rewrite Hm.
    + by rewrite list_lookup_fmap, Hi.
Qed.

Lemma record_deleteOne id s :
  uniqueIds s → record id (deleteOne [Field "_id" id] s) = None.
Proof.
  intros [Hnd _]. unfold record. apply readOne_None. intros d' Hd'.
  rewrite matches_id. apply bool_decide_eq_false_2. intros Hid.
  unfold deleteOne in Hd'.
  destruct (findDoc _ (docs s)) as [[i d]|] eqn:E; simpl in Hd'.
  - apply findDoc_Some in E as [Hi Hm].
    rewrite matches_id in Hm. apply bool_decide_eq_true_1 in Hm.
    apply delete_Permutation in Hi.
    rewrite Hi in Hnd. simpl in Hnd. apply NoDup_cons in Hnd as [Hnotin _].
    apply Hnotin. apply list_elem_of_fmap. exists d'. split; [congruence|done].
  - assert (readOne [Field "_id" id] s = None) as Hn
      by (unfold readOne; by rewrite E).
    rewrite readOne_None in Hn. specialize (Hn d' Hd').
    rewrite matches_id in Hn. apply bool_decide_eq_false_1 in Hn. done.
Qed.

Lemma record_createOne i o es vs s :
  uniqueIds s →
  record (nextId s) (createOne i o es vs s).2
  = Some {| _id := nextId s; item := i; owner := o; editors := es; viewers := vs;
            dateCreated := clock s; dateUpdated := clock s |}.
Proof.
  intros Hs.
  set (d := {| _id := nextId s; item := i; owner := o; editors := es;
               viewers := vs; dateCreated := clock s; dateUpdated := clock s |}).
  change (nextId s) with (_id d) at 1.
  apply record_unique; [by apply uniqueIds_createOne|].
  simpl. apply elem_of_app. right. by apply list_elem_of_singleton.
Qed.


(** ** The methods, run alone *)

Arguments readMany : simpl never.

Ltac unfold_async :=
  unfold accessList.createOne, accessList.readOne, accessList.readMany,
    accessList.updateOne, accessList.deleteOne, mbind, mret, Async_bind,
    Async_ret; simpl.

Lemma run_isOwner user id s :
  run (ById.isOwner user id) s =
  (match record id s with
   | None => Rejected (notFound id)
   | Some d =>
       if bool_decide (owner d = user) then Fulfilled ()
       else Rejected (ItemOwnerNotMatchError user id)
   end, s).
Proof.
  unfold ById.isOwner, record. unfold_async.
  destruct (readOne _ s) as [d|]; [|done]. simpl.
  rewrite eqb_toString. by destruct (bool_decide (owner d = user)).
Qed.

Lemma run_isViewer user id s :
  run (ById.isViewer user id) s =
  (match record id s with
   | None => Rejected (notFound id)
   | Some d =>
       if bool_decide (user ∈ viewers d) then Fulfilled ()
       else Rejected (ItemViewerNotMatchError user id)
   end, s).
Proof.
  unfold ById.isViewer, record. unfold_async.
  destruct (readOne _ s) as [d|]; [|done]. simpl.
  rewrite includes_toString. by destruct (bool_decide (user ∈ viewers d)).
Qed.

Lemma run_isEditor user id s :
  run (ById.isEditor user id) s =
  (match record id s with
   | None => Rejected (notFound id)
   | Some d =>
       if bool_decide (user ∈ editors d) then Fulfilled ()
       else Rejected (ItemEditorNotMatchError user id)
   end, s).
Proof.
  unfold ById.isEditor, record. unfold_async.
  destruct (readOne _ s) as [d|]; [|done]. simpl.
  rewrite includes_toString. by destruct (bool_decide (user ∈ editors d)).
Qed.

Lemma run_setToViewer id user s :
  run (ById.setToViewer id user) s =
  match record id s with
  | None => (Rejected (notFound id), s)
  | Some d =>
      if bool_decide (user ∈ viewers d)
      then (Fulfilled {| msg := toString user +:+ " is already a viewer of "
                                +:+ toString id |}, s)
      else (Fulfilled {| msg := "Viewers successfully updated!" |},
            updateOne [Field "_id" id]
              {| setEditors := None; setViewers := Some (viewers d ++ [user]) |} s)
  end.
Proof.
  unfold ById.setToViewer, ById.isViewer, record. unfold_async.
  destruct (readOne _ s) as [d|] eqn:E; simpl; [|by rewrite E].
  rewrite includes_toString.
  destruct (bool_decide (user ∈ viewers d)); simpl; [done|]. by rewrite E.
Qed.

Lemma run_setToEditor id user s :
  run (ById.setToEditor id user) s =
  match record id s with
  | None => (Rejected (notFound id), s)
  | Some d =>
      if bool_decide (user ∈ editors d)
      then (Fulfilled {| msg := toString user +:+ " is already an editor of "
                                +:+ toString id |}, s)
      else (Fulfilled {| msg := "Editors successfully updated!" |},
            updateOne [Field "_id" id]
              {| setEditors := Some (editors d ++ [user]); setViewers := None |} s)
  end.
Proof.
  unfold ById.setToEditor, ById.isEditor, record. unfold_async.
  destruct (readOne _ s) as [d|] eqn:E; simpl; [|by rewrite E].
  rewrite includes_toString.
  destruct (bool_decide (user ∈ editors d)); simpl; [done|]. by rewrite E.
Qed.

Lemma run_removeAccess id user s :
  run (ById.removeAccess id user) s =
  match readOne [Field "_id" id; Or [("viewers", user); ("editors", user)]] s with
  | None =>
      (Fulfilled (Some {| msg := toString user +:+ " is already restricted from seeing "
                                 +:+ toString id |}), s)
  | Some d =>
      if bool_decide (user ∈ viewers d)
      then (Fulfilled (Some {| msg := "Viewers successfully updated!" |}),
            updateOne [Field "_id" id]
              {| setEditors := None;
                 setViewers := Some (splice1 (viewers d)
                   (findIndex (viewers d) (λ x, bool_decide (x = user)))) |} s)
      else if bool_decide (user ∈ editors d)
      then (Fulfilled (Some {| msg := "Viewers successfully updated!" |}),
            updateOne [Field "_id" id]
              {| setEditors := Some (splice1 (editors d)
                   (findIndex (editors d) (λ x, bool_decide (x = user))));
                 setViewers := None |} s)
      else (Fulfilled None, s)
  end.
Proof.
  unfold ById.removeAccess. unfold_async.
  destruct (readOne _ s) as [d|]; [|done]. simpl.
  rewrite !findIndex_toString, !findIndex_found.
  destruct (bool_decide (user ∈ viewers d)); simpl; [done|].
  by destruct (bool_decide (user ∈ editors d)).
Qed.

Lemma run_deleteItem id s :
  run (ById.deleteItem id) s =
  (Fulfilled {| msg := "Item deleted successfully!" |}, deleteOne [Field "_id" id] s).
Proof. reflexivity. Qed.

Lemma run_addItem owner editors viewers s :
  run (ById.addItem owner editors viewers) s =
  let s' := (createOne None owner (default [] editors) (default [] viewers) s).2 in
  (Fulfilled {| addedMsg := "Item successfully added!";
                addedItem := record (nextId s) s' |}, s').
Proof. reflexivity. Qed.


(** ** Ownership *)

Lemma owners_updateOne f u s : owners (updateOne f u s) = owners s.
Proof.
  unfold owners, updateOne.
  destruct (findDoc f (docs s)) as [[i d]|] eqn:E; [|done].
  apply findDoc_Some in E as [Hi _]. simpl.
  rewrite list_fmap_insert. simpl.
  apply list_insert_id. by rewrite list_lookup_fmap, Hi.
Qed.

Lemma owners_execRole op s : owners (execRole op s) = owners s.
Proof.
  destruct op as [i u|i u|i u]; unfold execRole.
  - rewrite run_setToViewer. destruct (record i s) as [d|]; [|done].
    destruct (bool_decide _); [done|]. apply owners_updateOne.
  - rewrite run_setToEditor. destruct (record i s) as [d|]; [|done].
    destruct (bool_decide _); [done|]. apply owners_updateOne.
  - rewrite run_removeAccess. destruct (readOne _ s) as [d|]; [|done].
    destruct (bool_decide _); [apply owners_updateOne|].
    destruct (bool_decide _); [apply owners_updateOne|done].
Qed.

(** C8: the owner of a record is set when it is created and never changed:
    whatever sequence of [setToViewer], [setToEditor] and [removeAccess] is
    applied, every record has the owner it had before; [removeAccess] in
    particular touches only the two role sets. *)
Theorem owner_is_immutable (ops : list RoleOp) (s : DocCollection) :
  owners (execRoles ops s) = owners s
  ∧ ∀ i u, owners (run (ById.removeAccess i u) s).2 = owners s.
Proof.
  split.
  - revert s. induction ops as [|op ops IH]; intros s; [done|].
    unfold execRoles in *. cbn [foldl]. rewrite IH. apply owners_execRole.
  - intros i u. apply (owners_execRole (RemoveAccess i u)).
Qed.

(** C5: right after [addItem] with owner [u] has created a record, [isOwner]
    succeeds for [u] on that record and fails, with the owner error, for
    every other user. *)
Theorem addItem_then_isOwner (s : DocCollection) (u : ObjectId)
    (editors viewers : option (list ObjectId)) :
  uniqueIds s →
  ∃ d, addedItem_of (run (ById.addItem u editors viewers) s) = Some d
     ∧ owner d = u
     ∧ let s' := (run (ById.addItem u editors viewers) s).2 in
       run (ById.isOwner u (_id d)) s' = (Fulfilled (), s')
       ∧ ∀ v, v ≠ u →
           run (ById.isOwner v (_id d)) s'
           = (Rejected (ItemOwnerNotMatchError v (_id d)), s').
Proof.
  intros Hs. rewrite run_addItem. unfold addedItem_of. cbv zeta.
  cbn [fst snd addedItem].
  pose proof (record_createOne None u (default [] editors) (default [] viewers) s Hs)
    as Hrec.
  eexists. split; [exact Hrec|]. split; [done|]. cbn [_id owner]. split.
  - rewrite run_isOwner, Hrec. cbn [owner]. by rewrite bool_decide_eq_true_2.
  - intros v Hv. rewrite run_isOwner, Hrec. cbn [owner].
    by rewrite bool_decide_eq_false_2 by congruence.
Qed.

Lemma addItem_then_isOwner_witness :
  uniqueIds viewerOnly
  ∧ ∃ d, addedItem_of (run (ById.addItem 11%N None None) viewerOnly) = Some d
     ∧ owner d = 11%N
     ∧ let s' := (run (ById.addItem 11%N None None) viewerOnly).2 in
       run (ById.isOwner 11%N (_id d)) s' = (Fulfilled (), s')
       ∧ ∀ v, v ≠ 11%N →
           run (ById.isOwner v (_id d)) s'
           = (Rejected (ItemOwnerNotMatchError v (_id d)), s').
Proof.
  assert (uniqueIds viewerOnly) as Hs by (by apply (bool_decide_unpack _)).
  split; [exact Hs|]. apply (addItem_then_isOwner viewerOnly 11%N None None Hs).
Defined.


(** ** Absent targets *)

Lemma removeAccess_filter_None id user s :
  uniqueIds s →
  (∀ d, record id s = Some d → (user ∉ viewers d) ∧ (user ∉ editors d)) →
  readOne [Field "_id" id; Or [("viewers", user); ("editors", user)]] s = None.
Proof.
  intros Hs Hnone. apply readOne_None. intros d Hd.
  rewrite matches_id_roles.
  destruct (decide (_id d = id)) as [<-|Hne].
  - destruct (Hnone d (record_unique s d Hs Hd)) as [Hv He].
    rewrite (bool_decide_eq_false_2 (user ∈ viewers d)) by done.
    rewrite (bool_decide_eq_false_2 (user ∈ editors d)) by done.
    apply andb_false_r.
  - by rewrite (bool_decide_eq_false_2 (_id d = id)).
Qed.

(** C9: [deleteItem] on an identifier without a record does not throw: it
    answers with its usual confirmation and changes nothing; [removeAccess]
    for a user who is in neither role set answers "already restricted" and
    changes nothing; and once [deleteItem] has run on an identifier,
    [isOwner] on it throws [NotFound]. *)
Theorem absent_targets (s : DocCollection) (id user : ObjectId) :
  uniqueIds s →
  (record id s = None →
   run (ById.deleteItem id) s
   = (Fulfilled {| msg := "Item deleted successfully!" |}, s))
  ∧ ((∀ d, record id s = Some d → (user ∉ viewers d) ∧ (user ∉ editors d)) →
     run (ById.removeAccess id user) s
     = (Fulfilled (Some {| msg := toString user +:+ " is already restricted from seeing "
                                  +:+ toString id |}), s))
  ∧ (let s' := (run (ById.deleteItem id) s).2 in
     run (ById.isOwner user id) s' = (Rejected (notFound id), s')).
Proof.
  intros Hs. split; [|split].
  - intros Hnone. rewrite run_deleteItem. by rewrite deleteOne_None.
  - intros Hnone. rewrite run_removeAccess.
    by rewrite removeAccess_filter_None.
  - rewrite run_deleteItem. cbn [snd]. rewrite run_isOwner.
    by rewrite record_deleteOne.
Qed.

Lemma absent_targets_witness :
  uniqueIds viewerOnly
  ∧ (record 5%N viewerOnly = None →
     run (ById.deleteItem 5%N) viewerOnly
     = (Fulfilled {| msg := "Item deleted successfully!" |}, viewerOnly))
  ∧ ((∀ d, record 0%N viewerOnly = Some d → (30%N ∉ viewers d) ∧ (30%N ∉ editors d)) →
     run (ById.removeAccess 0%N 30%N) viewerOnly
     = (Fulfilled (Some {| msg := "30 is already restricted from seeing 0" |}),
        viewerOnly))
  ∧ run (ById.isOwner 10%N 0%N) (run (ById.deleteItem 0%N) viewerOnly).2
    = (Rejected (NotFoundError "Item 0 does not exist!"),
       (run (ById.deleteItem 0%N) viewerOnly).2).
Proof.
  assert (uniqueIds viewerOnly) as Hs by (by apply (bool_decide_unpack _)).
  split; [exact Hs|]. split; [|split].
  - apply (proj1 (absent_targets viewerOnly 5%N 30%N Hs)).
  - apply (proj1 (proj2 (absent_targets viewerOnly 0%N 30%N Hs))).
  - apply (proj2 (proj2 (absent_targets viewerOnly 0%N 10%N Hs))).
Defined.


(** ** Granting and revoking *)

Lemma roleSets_insert (l : list ItemAccessDoc) i d d' :
  l !! i = Some d → _id d' = _id d → editors d' = editors d → viewers d' = viewers d →
  (λ d, (_id d, editors d, viewers d)) <$> <[i := d']> l
  = (λ d, (_id d, editors d, viewers d)) <$> l.
Proof.
  intros Hi E1 E2 E3. rewrite list_fmap_insert. simpl.
  apply list_insert_id. rewrite list_lookup_fmap, Hi. simpl. congruence.
Qed.

(** The filter of [removeAccess] selects the record of [_id] as soon as that
    record holds the user in one of its role sets. *)
Lemma findDoc_id_roles id user l i d :
  findDoc [Field "_id" id] l = Some (i, d) →
  user ∈ viewers d ∨ user ∈ editors d →
  findDoc [Field "_id" id; Or [("viewers", user); ("editors", user)]] l = Some (i, d).
Proof.
  intros H Hin. apply list_find_Some in H as (Hi & Hm & Hlt).
  rewrite matches_id in Hm.
  apply list_find_Some. split; [done|]. split.
  - rewrite matches_id_roles, Hm. simpl.
    destruct Hin as [Hv|He].
    + by rewrite (bool_decide_eq_true_2 (user ∈ viewers d)).
    + rewrite (bool_decide_eq_true_2 (user ∈ editors d)) by done.
      apply orb_true_r.
  - intros j y Hj Hji Hy. apply (Hlt j y Hj Hji).
    rewrite matches_id_roles in Hy. rewrite matches_id.
    by apply andb_true_iff in Hy as [? _].
Qed.

Lemma record_findDoc id s d :
  record id s = Some d → ∃ i, findDoc [Field "_id" id] (docs s) = Some (i, d).
Proof.
  unfold record, readOne.
  destruct (findDoc _ (docs s)) as [[i x]|]; [|done]. intros [= ->]. by exists i.
Qed.

(** C6, as amended: for an existing record and a user who is in neither of
    its role sets, [setToEditor] followed by [removeAccess] for that user
    puts the role sets of every record back as they were: the user is no
    longer an editor and no entry is left behind in [editors] or
    [viewers]. *)
Theorem setToEditor_then_removeAccess (s : DocCollection) (id user : ObjectId)
    (d : ItemAccessDoc) :
  record id s = Some d →
  user ∉ editors d →
  user ∉ viewers d →
  let s1 := (run (ById.setToEditor id user) s).2 in
  let s2 := (run (ById.removeAccess id user) s1).2 in
  (∃ d1, record id s1 = Some d1 ∧ editors d1 = editors d ++ [user])
  ∧ roleSets s2 = roleSets s.
Proof.
  intros Hrec He Hv s1 s2.
  destruct (record_findDoc id s d Hrec) as [i Hfind].
  pose proof (findDoc_Some _ _ _ _ Hfind) as [Hi _].
  set (u1 := {| setEditors := Some (editors d ++ [user]); setViewers := None |}).
  set (d1 := applyUpdate u1 (clock s) d).
  assert (s1 = updateOne [Field "_id" id] u1 s) as Hs1.
  { unfold s1. rewrite run_setToEditor, Hrec.
    by rewrite (bool_decide_eq_false_2 (user ∈ editors d)). }
  assert (docs s1 = <[i := d1]> (docs s)) as Hdocs1.
  { rewrite Hs1. unfold updateOne. by rewrite Hfind. }
  assert (findDoc [Field "_id" id] (docs s1) = Some (i, d1)) as Hfind1.
  { rewrite Hdocs1. eapply findDoc_insert; [done|].
    unfold d1. rewrite matches_id_applyUpdate.
    by apply findDoc_Some in Hfind as [_ ?]. }
  assert (record id s1 = Some d1) as Hrec1.
  { unfold record, readOne. by rewrite Hfind1. }
  split.
  { exists d1. by split. }
  assert (readOne [Field "_id" id; Or [("viewers", user); ("editors", user)]] s1
          = Some d1) as Hsel.
  { unfold readOne. erewrite findDoc_id_roles; [done|done|].
    right. simpl. apply elem_of_app. right. by apply list_elem_of_singleton. }
  unfold s2. rewrite run_removeAccess, Hsel.
  rewrite (bool_decide_eq_false_2 (user ∈ viewers d1)) by done.
  rewrite (bool_decide_eq_true_2 (user ∈ editors d1))
    by (simpl; apply elem_of_app; right; by apply list_elem_of_singleton).
  cbn [snd]. unfold roleSets, updateOne. rewrite Hfind1. cbn [docs].
  rewrite Hdocs1, list_insert_insert_eq.
  eapply roleSets_insert; [done| | |]; simpl; try done.
  rewrite findIndex_pushed by done. apply splice1_pushed.
Qed.


(** ** Requests in flight together *)

Lemma run_step {A} (p : Async A) s : run p s = run (step p s).1 (step p s).2.
Proof. by destruct p. Qed.

Lemma settled_run {A} (p : Async A) o s : settled p = Some o → run p s = (o, s).
Proof. destruct p; simpl; intros [= <-]; done. Qed.

Lemma interleave_app {A B} (a b : list bool) (p : Async A) (q : Async B) s :
  interleave (a ++ b) p q s
  = let '(p', q', s') := interleave a p q s in interleave b p' q' s'.
Proof.
  revert p q s. induction a as [|[] a IH]; intros p q s; simpl; [done| |].
  - destruct (step p s) as [p1 s1]. apply IH.
  - destruct (step q s) as [q1 s1]. apply IH.
Qed.

(** While only the first request is scheduled, the second stands still, and
    once the first has settled the collection is the one it leaves when run
    alone. *)
Lemma interleave_first {A B} n (p : Async A) (q : Async B) s :
  ∃ p', interleave (replicate n true) p q s = (p', q, (interleave (replicate n true) p q s).2)
      ∧ run p s = run p' (interleave (replicate n true) p q s).2.
Proof.
  revert p s. induction n as [|n IH]; intros p s; simpl.
  - by exists p.
  - rewrite (run_step p s). destruct (step p s) as [p1 s1]. apply IH.
Qed.

Lemma interleave_second {A B} n (p : Async A) (q : Async B) s :
  ∃ q', interleave (replicate n false) p q s = (p, q', (interleave (replicate n false) p q s).2)
      ∧ run q s = run q' (interleave (replicate n false) p q s).2.
Proof.
  revert q s. induction n as [|n IH]; intros q s; simpl.
  - by exists q.
  - rewrite (run_step q s). destruct (step q s) as [q1 s1]. apply IH.
Qed.

(** A schedule without overlap ends where running the two requests alone,
    in that order, ends. *)
Lemma interleave_first_then_second {A B} n m (p : Async A) (q : Async B) s p' q' s' :
  interleave (replicate n true ++ replicate m false) p q s = (p', q', s') →
  is_Some (settled p') → is_Some (settled q') →
  s' = (run q (run p s).2).2.
Proof.
  intros H [o1 Ho1] [o2 Ho2]. rewrite interleave_app in H.
  destruct (interleave_first n p q s) as (p1 & E1 & R1).
  rewrite E1 in H. rewrite R1.
  set (s1 := (interleave (replicate n true) p q s).2) in *.
  destruct (interleave_second m p1 q s1) as (q1 & E2 & R2).
  rewrite E2 in H. injection H as -> -> <-.
  rewrite (settled_run _ _ _ Ho1). cbn [snd]. rewrite R2.
  by rewrite (settled_run _ _ _ Ho2).
Qed.

Lemma interleave_second_then_first {A B} n m (p : Async A) (q : Async B) s p' q' s' :
  interleave (replicate n false ++ replicate m true) p q s = (p', q', s') →
  is_Some (settled p') → is_Some (settled q') →
  s' = (run p (run q s).2).2.
Proof.
  intros H [o1 Ho1] [o2 Ho2]. rewrite interleave_app in H.
  destruct (interleave_second n p q s) as (q1 & E1 & R1).
  rewrite E1 in H. rewrite R1.
  set (s1 := (interleave (replicate n false) p q s).2) in *.
  destruct (interleave_first m p q1 s1) as (p1 & E2 & R2).
  rewrite E2 in H. injection H as -> -> <-.
  rewrite (settled_run _ _ _ Ho2). cbn [snd]. rewrite R2.
  by rewrite (settled_run _ _ _ Ho1).
Qed.

(** [setToViewer], run alone on an existing record, leaves the user among
    the viewers and removes no one. *)
Lemma setToViewer_adds id user s d :
  record id s = Some d →
  ∃ d', record id (run (ById.setToViewer id user) s).2 = Some d'
      ∧ viewers d' = (if bool_decide (user ∈ viewers d) then viewers d
                      else viewers d ++ [user])
      ∧ editors d' = editors d.
Proof.
  intros Hrec. rewrite run_setToViewer, Hrec.
  destruct (bool_decide (user ∈ viewers d)) eqn:E; cbn [snd].
  - by exists d.
  - unfold record. rewrite readOne_updateOne_id. fold (record id s).
    rewrite Hrec. simpl. by eexists.
Qed.

Lemma setToViewer_twice_both id u1 u2 s d :
  record id s = Some d →
  ∃ d', record id (run (ById.setToViewer id u2) (run (ById.setToViewer id u1) s).2).2
        = Some d'
      ∧ u1 ∈ viewers d' ∧ u2 ∈ viewers d'.
Proof.
  intros Hrec.
  destruct (setToViewer_adds id u1 s d Hrec) as (d1 & Hrec1 & Hv1 & _).
  destruct (setToViewer_adds id u2 _ d1 Hrec1) as (d2 & Hrec2 & Hv2 & _).
  exists d2. split; [done|].
  assert (u1 ∈ viewers d1) as H1.
  { rewrite Hv1. destruct (bool_decide (u1 ∈ viewers d)) eqn:E.
    - by apply bool_decide_eq_true_1 in E.
    - apply elem_of_app. right. by apply list_elem_of_singleton. }
  rewrite Hv2. destruct (bool_decide (u2 ∈ viewers d1)) eqn:E.
  - by apply bool_decide_eq_true_1 in E.
  - split; apply elem_of_app; [by left | right; by apply list_elem_of_singleton].
Qed.

(** C3, as amended: on a freshly created record without viewers, two calls
    [setToViewer(i, u1)] and [setToViewer(i, u2)] that do not overlap, in
    either order, leave both [u1] and [u2] among the viewers. *)
Theorem setToViewer_without_overlap (s : DocCollection) (owner u1 u2 : ObjectId)
    (sched : list bool) p' q' s' :
  uniqueIds s →
  oneAfterTheOther sched →
  let i := nextId s in
  let s0 := (run (ById.addItem owner None None) s).2 in
  interleave sched (ById.setToViewer i u1) (ById.setToViewer i u2) s0 = (p', q', s') →
  is_Some (settled p') →
  is_Some (settled q') →
  record i s0 = Some {| _id := i; item := None; owner := owner; editors := [];
                        viewers := []; dateCreated := clock s; dateUpdated := clock s |}
  ∧ ∃ d, record i s' = Some d ∧ u1 ∈ viewers d ∧ u2 ∈ viewers d.
Proof.
  intros Hs (b & n & m & ->) i s0 H Hp Hq.
  assert (record i s0 = Some {| _id := i; item := None; owner := owner; editors := [];
            viewers := []; dateCreated := clock s; dateUpdated := clock s |}) as Hrec.
  { unfold s0. rewrite run_addItem. cbv zeta. cbn [snd default].
    by apply record_createOne. }
  split; [done|]. destruct b; simpl negb in H.
  - rewrite (interleave_first_then_second _ _ _ _ _ _ _ _ H Hp Hq).
    by eapply setToViewer_twice_both.
  - rewrite (interleave_second_then_first _ _ _ _ _ _ _ _ H Hp Hq).
    destruct (setToViewer_twice_both i u2 u1 s0 _ Hrec) as (d & ? & ? & ?).
    by exists d.
Qed.


Lemma setToViewer_without_overlap_witness :
  uniqueIds emptyCollection
  ∧ oneAfterTheOther [true; true; true; false; false; false]
  ∧ ∃ d, record 0%N
           (interleave [true; true; true; false; false; false]
              (ById.setToViewer 0%N 20%N) (ById.setToViewer 0%N 30%N) freshRecord).2
         = Some d
       ∧ 20%N ∈ viewers d ∧ 30%N ∈ viewers d.
Proof.
  split; [apply uniqueIds_empty|]. split; [by exists true, 3, 3|].
  refine (proj2 (setToViewer_without_overlap emptyCollection 10%N 20%N 30%N
    [true; true; true; false; false; false]
    (Resolve {| msg := "Viewers successfully updated!" |})
    (Resolve {| msg := "Viewers successfully updated!" |})
    _ uniqueIds_empty _ _ _ _)).
  - by exists true, 3, 3.
  - reflexivity.
  - by eexists.
  - by eexists.
Defined.

(** C3 as stated fails: when both calls read the viewers before either
    writes them, the call that writes last overwrites the other's entry. *)
Lemma concurrent_setToViewer_loses_an_update :
  ∃ r1 r2 s',
    interleave [true; false; true; false; true; false]
      (ById.setToViewer 0%N 20%N) (ById.setToViewer 0%N 30%N) freshRecord
    = (Resolve r1, Resolve r2, s')
    ∧ (viewers <$> record 0%N freshRecord) = Some []
    ∧ ∃ d, record 0%N s' = Some d ∧ viewers d = [30%N] ∧ 20%N ∉ viewers d.
Proof.
  do 3 eexists. split; [vm_compute; reflexivity|]. split; [reflexivity|].
  eexists. split; [vm_compute; reflexivity|]. split; [reflexivity|].
  cbn [viewers]. intros H. apply list_elem_of_singleton in H. done.
Qed.

Lemma setToEditor_then_removeAccess_witness :
  record 0%N freshRecord
  = Some {| _id := 0%N; item := None; owner := 10%N; editors := []; viewers := [];
            dateCreated := 0; dateUpdated := 0 |}
  ∧ (∃ d1, record 0%N (run (ById.setToEditor 0%N 20%N) freshRecord).2 = Some d1
         ∧ editors d1 = [] ++ [20%N])
  ∧ roleSets (run (ById.removeAccess 0%N 20%N)
               (run (ById.setToEditor 0%N 20%N) freshRecord).2).2
    = roleSets freshRecord.
Proof.
  split; [reflexivity|].
  apply (setToEditor_then_removeAccess freshRecord 0%N 20%N
    {| _id := 0%N; item := None; owner := 10%N; editors := []; viewers := [];
       dateCreated := 0; dateUpdated := 0 |}).
  - reflexivity.
  - cbn [editors]. by intros ?%elem_of_nil.
  - cbn [viewers]. by intros ?%elem_of_nil.
Defined.

(** C6 as stated fails for a user who is a viewer and not an editor:
    [removeAccess] looks in [viewers] first, so it takes the old viewer entry
    away and leaves the new editor entry in place. *)
Lemma setToEditor_then_removeAccess_of_a_viewer :
  ∃ d, record 0%N viewerOnly = Some d
     ∧ (20%N ∉ editors d)
     ∧ roleSets viewerOnly = [(0%N, [], [20%N])]
     ∧ roleSets (run (ById.removeAccess 0%N 20%N)
                  (run (ById.setToEditor 0%N 20%N) viewerOnly).2).2
       = [(0%N, [20%N], [])]
     ∧ roleSets (run (ById.removeAccess 0%N 20%N)
                  (run (ById.setToEditor 0%N 20%N) viewerOnly).2).2
       ≠ roleSets viewerOnly.
Proof.
  eexists. split; [reflexivity|]. split.
  { cbn [editors]. by intros ?%elem_of_nil. }
  split; [reflexivity|]. split; [vm_compute; reflexivity|].
  vm_compute. intros [=].
Qed.


(** ** Role sets without duplicates *)

Lemma run_bind {A B} (p : Async A) (h : A → Async B) s :
  run (bind p h) s =
  match (run p s).1 with
  | Fulfilled a => run (h a) (run p s).2
  | Rejected e => (Rejected e, (run p s).2)
  end.
Proof.
  revert s. induction p as [a|e|i o es vs k IH|f k IH|f o k IH|f u k IH|f k IH];
    intros s; simpl; done.
Qed.

Lemma NoDup_pushed {A} (l : list A) x : NoDup l → x ∉ l → NoDup (l ++ [x]).
Proof.
  intros Hl Hx. apply NoDup_app. split; [done|]. split.
  - by intros y Hy ->%list_elem_of_singleton.
  - apply NoDup_singleton.
Qed.

Lemma roleSetsNoDup_empty : roleSetsNoDup emptyCollection.
Proof. constructor. Qed.

Lemma roleSetsNoDup_createOne i o es vs s :
  roleSetsNoDup s → NoDup es → NoDup vs →
  roleSetsNoDup (createOne i o es vs s).2.
Proof.
  intros Hs Hes Hvs. unfold roleSetsNoDup. simpl.
  apply Forall_app. split; [done|]. by constructor.
Qed.

Lemma roleSetsNoDup_updateOne f u s :
  roleSetsNoDup s →
  (∀ l, setEditors u = Some l → NoDup l) →
  (∀ l, setViewers u = Some l → NoDup l) →
  roleSetsNoDup (updateOne f u s).
Proof.
  intros Hs He Hv. unfold updateOne.
  destruct (findDoc f (docs s)) as [[i d]|] eqn:E; [|done].
  apply findDoc_Some in E as [Hi _]. unfold roleSetsNoDup. simpl.
  apply Forall_insert; [done|]. simpl.
  unfold roleSetsNoDup in Hs. rewrite Forall_forall in Hs.
  destruct (Hs d) as [Hde Hdv]; [by eapply list_elem_of_lookup_2|].
  split.
  - destruct (setEditors u) as [l|]; simpl; [by apply He | done].
  - destruct (setViewers u) as [l|]; simpl; [by apply Hv | done].
Qed.

Lemma roleSetsNoDup_deleteOne f s : roleSetsNoDup s → roleSetsNoDup (deleteOne f s).
Proof.
  intros Hs. unfold deleteOne.
  destruct (findDoc f (docs s)) as [[i d]|]; [|done].
  unfold roleSetsNoDup. simpl. by apply Forall_delete.
Qed.

Lemma roleSetsNoDup_elem s d :
  roleSetsNoDup s → d ∈ docs s → NoDup (editors d) ∧ NoDup (viewers d).
Proof. intros Hs Hd. unfold roleSetsNoDup in Hs. rewrite Forall_forall in Hs. auto. Qed.

Lemma elem_of_insertByDate x d l : x ∈ insertByDate d l → x = d ∨ x ∈ l.
Proof.
  induction l as [|y l IH]; simpl.
  - intros ->%list_elem_of_singleton. by left.
  - destruct (Nat.leb (dateUpdated y) (dateUpdated d)).
    + intros [->|H]%elem_of_cons; [by left | by right].
    + intros [->|H]%elem_of_cons; [right; left|].
      destruct (IH H) as [->|?]; [by left | right; by right].
Qed.

Lemma elem_of_sortByDateDesc d l : d ∈ sortByDateDesc l → d ∈ l.
Proof.
  unfold sortByDateDesc. induction l as [|x l IH]; simpl; [done|].
  intros [->|H]%elem_of_insertByDate; [left | right; by apply IH].
Qed.

Lemma elem_of_readMany f o s d :
  d ∈ readMany f o s → d ∈ docs s ∧ matches f d = true.
Proof.
  intros H.
  assert (d ∈ filter (λ d, matches f d = true) (docs s)) as Hd.
  { unfold readMany in H. destruct o as [[]|]; [by apply elem_of_sortByDateDesc | done]. }
  apply list_elem_of_filter in Hd as [? ?]. done.
Qed.

(** A loop keeps what each of its rounds keeps. *)
Lemma forOf_invariant {A} (I : DocCollection → Prop) (P : A → Prop)
    (items : list A) (body : A → Async unit) :
  (∀ x s, P x → I s → I (run (body x) s).2) →
  Forall P items → ∀ s, I s → I (run (ByItem.forOf items body) s).2.
Proof.
  intros Hbody Hitems. induction Hitems as [|x items Hx _ IH]; intros s Hs.
  - done.
  - cbn [ByItem.forOf]. unfold mbind, Async_bind. rewrite run_bind.
    specialize (Hbody x s Hx Hs).
    destruct (run (body x) s) as [[[]|e] s1]; cbn [fst snd] in *; [|done].
    by apply IH.
Qed.

Lemma roleSetsNoDup_execRole op s : roleSetsNoDup s → roleSetsNoDup (execRole op s).
Proof.
  intros Hs. destruct op as [i u|i u|i u]; unfold execRole.
  - rewrite run_setToViewer. destruct (record i s) as [d|] eqn:E; [|done].
    destruct (bool_decide (u ∈ viewers d)) eqn:Hu; [done|].
    apply bool_decide_eq_false_1 in Hu. apply readOne_id_Some in E as [Hd _].
    destruct (roleSetsNoDup_elem s d Hs Hd) as [_ Hv].
    apply roleSetsNoDup_updateOne; [done|done|].
    intros l [= <-]. by apply NoDup_pushed.
  - rewrite run_setToEditor. destruct (record i s) as [d|] eqn:E; [|done].
    destruct (bool_decide (u ∈ editors d)) eqn:Hu; [done|].
    apply bool_decide_eq_false_1 in Hu. apply readOne_id_Some in E as [Hd _].
    destruct (roleSetsNoDup_elem s d Hs Hd) as [He _].
    apply roleSetsNoDup_updateOne; [done| |done].
    intros l [= <-]. by apply NoDup_pushed.
  - rewrite run_removeAccess. destruct (readOne _ s) as [d|] eqn:E; [|done].
    apply readOne_Some in E as [Hd _].
    destruct (roleSetsNoDup_elem s d Hs Hd) as [He Hv].
    destruct (bool_decide (u ∈ viewers d)).
    { apply roleSetsNoDup_updateOne; [done|done|].
      intros l [= <-]. by apply splice1_NoDup. }
    destruct (bool_decide (u ∈ editors d)); [|done].
    apply roleSetsNoDup_updateOne; [done| |done].
    intros l [= <-]. by apply splice1_NoDup.
Qed.


(** ** The second class, run alone *)

(** Its role checks and [canView] select by [itemId], a field no document
    has: they find no record, whatever the registry holds. *)
Lemma run_second_isViewer user itemId s :
  run (ByItem.isViewer user itemId) s = (Rejected (notFound itemId), s).
Proof. unfold ByItem.isViewer. unfold_async. by rewrite readOne_itemId. Qed.

Lemma run_second_isEditor user itemId s :
  run (ByItem.isEditor user itemId) s = (Rejected (notFound itemId), s).
Proof. unfold ByItem.isEditor. unfold_async. by rewrite readOne_itemId. Qed.

Lemma run_second_canView user itemId s :
  run (ByItem.canView user itemId) s = (Rejected (notFound itemId), s).
Proof. unfold ByItem.canView. unfold_async. by rewrite readOne_itemId. Qed.

Lemma run_second_removeAccess itemId user s :
  run (ByItem.removeAccess itemId user) s
  = (Fulfilled {| msg := toString user +:+ " is already restricted from seeing "
                         +:+ toString itemId |}, s).
Proof. unfold ByItem.removeAccess. unfold_async. by rewrite readOne_itemId. Qed.

Lemma run_second_isOwner user itemId s :
  run (ByItem.isOwner user itemId) s =
  (match readOne [Field "item" itemId] s with
   | None => Rejected (notFound itemId)
   | Some d =>
       if bool_decide (owner d = user) then Fulfilled ()
       else Rejected (ItemOwnerNotMatchError user itemId)
   end, s).
Proof.
  unfold ByItem.isOwner. unfold_async.
  destruct (readOne _ s) as [d|]; [|done]. simpl.
  rewrite eqb_toString. by destruct (bool_decide (owner d = user)).
Qed.

(** With [isViewer] always failing, [setToViewer] always takes its [catch]
    branch: on an existing record it appends the user, viewer or not. *)
Lemma run_second_setToViewer id user s :
  run (ByItem.setToViewer id user) s =
  match record id s with
  | None => (Rejected (notFound id), s)
  | Some d =>
      (Fulfilled {| msg := "Viewers successfully updated!" |},
       updateOne [Field "_id" id]
         {| setEditors := None; setViewers := Some (viewers d ++ [user]) |} s)
  end.
Proof.
  unfold ByItem.setToViewer, ByItem.isViewer, record. unfold_async.
  rewrite readOne_itemId. simpl. by destruct (readOne _ s).
Qed.

Lemma run_second_setToEditor id user s :
  run (ByItem.setToEditor id user) s =
  match record id s with
  | None => (Rejected (notFound id), s)
  | Some d =>
      (Fulfilled {| msg := "Editors successfully updated!" |},
       updateOne [Field "_id" id]
         {| setEditors := Some (editors d ++ [user]); setViewers := None |} s)
  end.
Proof.
  unfold ByItem.setToEditor, ByItem.isEditor, record. unfold_async.
  rewrite readOne_itemId. simpl. by destruct (readOne _ s).
Qed.

(** The decision [canView] takes on a record is the union of the three
    roles. *)
Lemma hasItemAccess_union d user :
  ByItem.hasItemAccess d user = true
  ↔ owner d = user ∨ user ∈ viewers d ∨ user ∈ editors d.
Proof.
  unfold ByItem.hasItemAccess.
  rewrite eqb_toString, !includes_toString, !orb_true_iff, !bool_decide_eq_true.
  tauto.
Qed.

Lemma roleSetsNoDup_setToViewerAllItems o u s :
  roleSetsNoDup s → roleSetsNoDup (run (ByItem.setToViewerAllItems o u) s).2.
Proof.
  intros Hs. unfold ByItem.setToViewerAllItems, ByItem.getItemsByOwner,
    ByItem.getItems. unfold_async. rewrite run_bind.
  match goal with
  | |- roleSetsNoDup (match (run ?p s).1 with _ => _ end).2 =>
      assert (roleSetsNoDup (run p s).2) as H;
      [|by destruct (run p s) as [[[]|e] s1]]
  end.
  apply (forOf_invariant roleSetsNoDup
           (λ d, NoDup (editors d) ∧ NoDup (viewers d))); [| |done].
  - intros x s1 [_ Hv] Hs1. rewrite some_toString.
    destruct (bool_decide (u ∈ viewers x)) eqn:Hu; simpl; [done|].
    apply bool_decide_eq_false_1 in Hu.
    apply roleSetsNoDup_updateOne; [done|done|].
    intros l [= <-]. by apply NoDup_pushed.
  - apply Forall_forall. intros x [Hx _]%elem_of_readMany.
    by apply roleSetsNoDup_elem with s.
Qed.

Lemma roleSetsNoDup_removeAccessAllItems o u s :
  roleSetsNoDup s → roleSetsNoDup (run (ByItem.removeAccessAllItems o u) s).2.
Proof.
  intros Hs. unfold ByItem.removeAccessAllItems. unfold_async. rewrite run_bind.
  match goal with
  | |- roleSetsNoDup (match (run ?p s).1 with _ => _ end).2 =>
      assert (roleSetsNoDup (run p s).2) as H;
      [|by destruct (run p s) as [[[]|e] s1]]
  end.
  apply (forOf_invariant roleSetsNoDup
           (λ d, NoDup (editors d) ∧ NoDup (viewers d))); [| |done].
  - intros x s1 [He Hv] Hs1.
    destruct (negb _); simpl.
    + apply roleSetsNoDup_updateOne; [done|done|].
      intros l [= <-]. by apply splice1_NoDup.
    + apply roleSetsNoDup_updateOne; [done| |done].
      intros l [= <-]. by apply splice1_NoDup.
  - apply Forall_forall. intros x [Hx _]%elem_of_readMany.
    by apply roleSetsNoDup_elem with s.
Qed.

Lemma roleSetsNoDup_exec op s :
  roleSetsNoDup s → suppliesNoDup op → roleSetsNoDup (exec op s).
Proof.
  intros Hs Hop. destruct op; unfold exec.
  - destruct Hop. rewrite run_addItem. cbv zeta. cbn [snd].
    by apply roleSetsNoDup_createOne.
  - rewrite run_deleteItem. by apply roleSetsNoDup_deleteOne.
  - by apply roleSetsNoDup_execRole.
  - destruct Hop. by apply roleSetsNoDup_createOne.
  - by apply roleSetsNoDup_deleteOne.
  - by rewrite run_second_removeAccess.
  - by apply roleSetsNoDup_setToViewerAllItems.
  - by apply roleSetsNoDup_removeAccessAllItems.
Qed.

(** C7, as amended: as long as the calls run one after the other, none
    overlapping another, and the initial editor and viewer lists handed to
    [addItem] have no duplicates, no record of a reachable registry state has
    a duplicate in [editors] or in [viewers]: [addItem], [deleteItem],
    [setToViewer], [setToEditor], [removeAccess] and the two bulk operations
    all keep it so. *)
Theorem role_sets_have_no_duplicates (ops : list Op) :
  Forall suppliesNoDup ops → roleSetsNoDup (reach ops).
Proof.
  unfold reach. generalize roleSetsNoDup_empty. generalize emptyCollection.
  induction ops as [|op ops IH]; intros s Hs Hops; [done|].
  apply Forall_cons in Hops as [Hop Hops]. cbn [foldl].
  apply IH; [|done]. by apply roleSetsNoDup_exec.
Qed.

Lemma role_sets_have_no_duplicates_witness :
  Forall suppliesNoDup
    [AddItem 10%N None (Some [20%N]); Role (SetToViewer 0%N 20%N);
     Role (SetToEditor 0%N 30%N); AddItemFor 7%N 10%N None None;
     SetToViewerAllItems 10%N 40%N; RemoveAccessAllItems 10%N 20%N]
  ∧ roleSetsNoDup (reach
    [AddItem 10%N None (Some [20%N]); Role (SetToViewer 0%N 20%N);
     Role (SetToEditor 0%N 30%N); AddItemFor 7%N 10%N None None;
     SetToViewerAllItems 10%N 40%N; RemoveAccessAllItems 10%N 20%N]).
Proof.
  assert (Forall suppliesNoDup
    [AddItem 10%N None (Some [20%N]); Role (SetToViewer 0%N 20%N);
     Role (SetToEditor 0%N 30%N); AddItemFor 7%N 10%N None None;
     SetToViewerAllItems 10%N 40%N; RemoveAccessAllItems 10%N 20%N]) as H.
  { by apply (bool_decide_unpack _). }
  split; [exact H|]. apply (role_sets_have_no_duplicates _ H).
Defined.

(** C7 as stated fails: [addItem] stores the lists it is given as they are,
    duplicates included; and two overlapping [setToViewer] calls for the same
    user, the second checking before the first has written, both append
    him. *)
Lemma addItem_keeps_supplied_duplicates :
  roleSetsNoDup emptyCollection
  ∧ roleSets (reach [AddItem 10%N (Some [20%N; 20%N]) None])
    = [(0%N, [20%N; 20%N], [])]
  ∧ ¬ roleSetsNoDup (reach [AddItem 10%N (Some [20%N; 20%N]) None])
  ∧ roleSetsNoDup (reach [AddItem 10%N None None])
  ∧ ∃ r1 r2 s',
      interleave [true; false; true; true; false; false]
        (ById.setToViewer 0%N 20%N) (ById.setToViewer 0%N 20%N)
        (reach [AddItem 10%N None None])
      = (Resolve r1, Resolve r2, s')
      ∧ roleSets s' = [(0%N, [], [20%N; 20%N])]
      ∧ ¬ roleSetsNoDup s'.
Proof.
  split; [apply roleSetsNoDup_empty|]. split; [reflexivity|].
  split.
  { intros H. apply Forall_inv in H as [He _]. cbn [editors] in He.
    apply NoDup_cons in He as [Hin _]. apply Hin. left. }
  split; [by apply (bool_decide_unpack _)|].
  do 3 eexists. split; [vm_compute; reflexivity|]. split; [reflexivity|].
  intros H. apply Forall_inv in H as [_ Hv]. cbn [viewers] in Hv.
  apply NoDup_cons in Hv as [Hin _]. apply Hin. left.
Qed.


(** ** The role checks *)

(** In the first class the three strict checks behave as specified: they
    throw [NotFound] exactly when the identifier has no record, and on a
    record they pass exactly for a holder of the role. *)
Lemma strict_role_checks_by_id user id s :
  ((run (ById.isOwner user id) s).1 = Rejected (notFound id) ↔ record id s = None)
  ∧ ((run (ById.isViewer user id) s).1 = Rejected (notFound id) ↔ record id s = None)
  ∧ ((run (ById.isEditor user id) s).1 = Rejected (notFound id) ↔ record id s = None)
  ∧ ∀ d, record id s = Some d →
      ((run (ById.isOwner user id) s).1
       = if bool_decide (owner d = user) then Fulfilled ()
         else Rejected (ItemOwnerNotMatchError user id))
      ∧ ((run (ById.isViewer user id) s).1
         = if bool_decide (user ∈ viewers d) then Fulfilled ()
           else Rejected (ItemViewerNotMatchError user id))
      ∧ ((run (ById.isEditor user id) s).1
         = if bool_decide (user ∈ editors d) then Fulfilled ()
           else Rejected (ItemEditorNotMatchError user id)).
Proof.
  rewrite run_isOwner, run_isViewer, run_isEditor. cbn [fst].
  unfold notFound. destruct (record id s) as [d|].
  - split; [|split; [|split]].
    1-3: split; [by destruct (bool_decide _) | done].
    by intros d' [= <-].
  - split; [|split; [|split]]; done.
Qed.

(** C4 on the second class: with item [7] owned by [10] and viewed by [20],
    [isOwner(10, 7)] passes, but [isViewer(20, 7)] throws [NotFound] although
    the record exists and [20] is a viewer, and so does [isEditor]; asking by
    the record's own identifier [0] changes nothing. *)
Theorem second_isViewer_finds_no_record :
  (∃ d, readOne [Field "item" 7%N] viewerOnlyItem = Some d
        ∧ _id d = 0%N ∧ owner d = 10%N ∧ viewers d = [20%N])
  ∧ run (ByItem.isOwner 10%N 7%N) viewerOnlyItem = (Fulfilled (), viewerOnlyItem)
  ∧ run (ByItem.isViewer 20%N 7%N) viewerOnlyItem
    = (Rejected (NotFoundError "Item 7 does not exist!"), viewerOnlyItem)
  ∧ run (ByItem.isViewer 20%N 0%N) viewerOnlyItem
    = (Rejected (NotFoundError "Item 0 does not exist!"), viewerOnlyItem)
  ∧ run (ByItem.isEditor 20%N 7%N) viewerOnlyItem
    = (Rejected (NotFoundError "Item 7 does not exist!"), viewerOnlyItem).
Proof.
  split; [by eexists|]. repeat split; vm_compute; reflexivity.
Qed.

(** C1 on the code: with item [7] owned by [10] and viewed by [20],
    [hasItemAccess] grants [20] the record, yet [canView(20, 7)] throws
    [NotFound], as it does for the owner and under the record's own
    identifier. *)
Theorem second_canView_finds_no_record :
  (∃ d, readOne [Field "item" 7%N] viewerOnlyItem = Some d
        ∧ _id d = 0%N ∧ owner d = 10%N ∧ viewers d = [20%N] ∧ editors d = []
        ∧ ByItem.hasItemAccess d 20%N = true)
  ∧ run (ByItem.canView 20%N 7%N) viewerOnlyItem
    = (Rejected (NotFoundError "Item 7 does not exist!"), viewerOnlyItem)
  ∧ run (ByItem.canView 10%N 7%N) viewerOnlyItem
    = (Rejected (NotFoundError "Item 7 does not exist!"), viewerOnlyItem)
  ∧ run (ByItem.canView 20%N 0%N) viewerOnlyItem
    = (Rejected (NotFoundError "Item 0 does not exist!"), viewerOnlyItem).
Proof.
  split; [eexists; repeat split; vm_compute; reflexivity|].
  repeat split; vm_compute; reflexivity.
Qed.

(** ** Granting twice *)

(** In the first class [setToViewer] is idempotent: on a record, a second
    call answers "already a viewer" and changes nothing; without a record it
    throws [NotFound]. *)
Lemma setToViewer_idempotent_by_id id user s :
  (record id s = None →
   run (ById.setToViewer id user) s = (Rejected (notFound id), s))
  ∧ (is_Some (record id s) →
     let s1 := (run (ById.setToViewer id user) s).2 in
     run (ById.setToViewer id user) s1
     = (Fulfilled {| msg := toString user +:+ " is already a viewer of "
                            +:+ toString id |}, s1)).
Proof.
  split.
  - intros H. by rewrite run_setToViewer, H.
  - intros [d Hrec] s1.
    destruct (setToViewer_adds id user s d Hrec) as (d1 & Hrec1 & Hv1 & _).
    fold s1 in Hrec1. rewrite run_setToViewer, Hrec1.
    rewrite (bool_decide_eq_true_2 (user ∈ viewers d1)); [done|].
    rewrite Hv1. destruct (bool_decide (user ∈ viewers d)) eqn:E.
    + by apply bool_decide_eq_true_1 in E.
    + apply elem_of_app. right. by apply list_elem_of_singleton.
Qed.

(** C2 on the second class: on the record [0] of a fresh item, a first
    [setToViewer(0, 20)] makes [20] a viewer, and a second one answers
    "Viewers successfully updated!" again and appends [20] a second time. *)
Theorem second_setToViewer_appends :
  (viewers <$> record 0%N freshItem) = Some []
  ∧ (viewers <$> record 0%N (run (ByItem.setToViewer 0%N 20%N) freshItem).2)
    = Some [20%N]
  ∧ (run (ByItem.setToViewer 0%N 20%N)
       (run (ByItem.setToViewer 0%N 20%N) freshItem).2).1
    = Fulfilled {| msg := "Viewers successfully updated!" |}
  ∧ (viewers <$> record 0%N
       (run (ByItem.setToViewer 0%N 20%N)
          (run (ByItem.setToViewer 0%N 20%N) freshItem).2).2)
    = Some [20%N; 20%N].
Proof. repeat split; vm_compute; reflexivity. Qed.

(** ** Revoking *)

(** In the first class [removeAccess] looks in [viewers] first: for a user
    in both role sets it removes one viewer entry and leaves [editors] as it
    is, so that the user still has access to the record. *)
Lemma removeAccess_viewers_first_by_id id user s d :
  record id s = Some d → user ∈ viewers d → user ∈ editors d →
  ∃ d1, record id (run (ById.removeAccess id user) s).2 = Some d1
      ∧ editors d1 = editors d
      ∧ viewers d1 = splice1 (viewers d) (findIndex (viewers d) (λ x, bool_decide (x = user)))
      ∧ length (viewers d1) + 1 = length (viewers d)
      ∧ ByItem.hasItemAccess d1 user = true.
Proof.
  intros Hrec Hv He.
  destruct (record_findDoc id s d Hrec) as [i Hfind].
  assert (readOne [Field "_id" id; Or [("viewers", user); ("editors", user)]] s
          = Some d) as Hsel.
  { unfold readOne. erewrite findDoc_id_roles; [done|done|by left]. }
  rewrite run_removeAccess, Hsel.
  rewrite (bool_decide_eq_true_2 (user ∈ viewers d)) by done. cbn [snd].
  unfold record. rewrite readOne_updateOne_id. fold (record id s). rewrite Hrec.
  eexists. split; [reflexivity|]. simpl. split; [done|]. split; [done|]. split.
  - destruct (findIndex_present (viewers d) user Hv) as (j & -> & Hj).
    rewrite splice1_index, length_delete by (by eexists). 
    apply lookup_lt_Some in Hj. lia.
  - apply hasItemAccess_union. right. right. done.
Qed.

(** C10 on the second class: with [20] both editor and viewer of item [7],
    [removeAccess(7, 20)] answers "already restricted" and removes nothing,
    from [viewers] or from [editors]; and [canView(20, 7)] throws
    [NotFound]. *)
Theorem second_removeAccess_finds_no_record :
  (∃ d, readOne [Field "item" 7%N] viewerAndEditorItem = Some d
        ∧ viewers d = [20%N] ∧ editors d = [20%N])
  ∧ run (ByItem.removeAccess 7%N 20%N) viewerAndEditorItem
    = (Fulfilled {| msg := "20 is already restricted from seeing 7" |},
       viewerAndEditorItem)
  ∧ run (ByItem.removeAccess 0%N 20%N) viewerAndEditorItem
    = (Fulfilled {| msg := "20 is already restricted from seeing 0" |},
       viewerAndEditorItem)
  ∧ run (ByItem.canView 20%N 7%N) viewerAndEditorItem
    = (Rejected (NotFoundError "Item 7 does not exist!"), viewerAndEditorItem).
Proof.
  split; [by eexists|]. repeat split; vm_compute; reflexivity.
Qed.

(** * Further properties *)

(** ** Records other than the one a call addresses *)

(** Replacing a document by one the filter judges alike does not change
    which position the filter selects. *)
Lemma findDoc_insert_alike f l i d d' :
  l !! i = Some d → matches f d' = matches f d →
  findDoc f (<[i := d']> l)
  = (λ p, (p.1, if decide (p.1 = i) then d' else p.2)) <$> findDoc f l.
Proof.
  unfold findDoc. revert i. induction l as [|x l IH]; intros i Hi Hm; [done|].
  destruct i as [|i]; simpl in *.
  - injection Hi as ->. rewrite Hm.
    destruct (decide (matches f d = true)); simpl; [done|].
    destruct (list_find _ l) as [[j y]|]; simpl; [|done]. done.
  - destruct (decide (matches f x = true)); simpl; [done|].
    rewrite (IH i Hi Hm).
    destruct (list_find _ l) as [[j y]|]; simpl; [|done].
    f_equal. f_equal. destruct (decide (j = i)), (decide (S j = S i)); done || lia.
Qed.

Lemma record_updateOne_other id id' u s :
  id' ≠ id → record id' (updateOne [Field "_id" id] u s) = record id' s.
Proof.
  intros Hne. unfold record, readOne, updateOne.
  destruct (findDoc [Field "_id" id] (docs s)) as [[i d]|] eqn:E; [|done].
  apply findDoc_Some in E as [Hi Hm]. cbn [docs].
  rewrite (findDoc_insert_alike _ _ i d); [|done|by rewrite !matches_id].
  destruct (findDoc [Field "_id" id'] (docs s)) as [[j y]|] eqn:E'; [|done].
  simpl. destruct (decide (j = i)) as [->|]; [|done].
  apply findDoc_Some in E' as [Hj Hm']. rewrite Hi in Hj. injection Hj as ->.
  rewrite matches_id in Hm, Hm'.
  apply bool_decide_eq_true_1 in Hm, Hm'. congruence.
Qed.

Lemma findDoc_delete_other f l i d :
  l !! i = Some d → matches f d = false →
  snd <$> findDoc f (delete i l) = snd <$> findDoc f l.
Proof.
  unfold findDoc. revert i. induction l as [|x l IH]; intros i Hi Hm; [done|].
  destruct i as [|i]; simpl in *.
  - injection Hi as ->. rewrite Hm.
    destruct (decide (false = true)); [done|].
    by destruct (list_find _ l) as [[j y]|].
  - destruct (decide (matches f x = true)); simpl; [done|].
    specialize (IH i Hi Hm).
    destruct (list_find _ (delete i l)) as [[j y]|],
             (list_find _ l) as [[j' y']|]; simpl in *; congruence.
Qed.

Lemma record_deleteOne_other id id' s :
  id' ≠ id → record id' (deleteOne [Field "_id" id] s) = record id' s.
Proof.
  intros Hne. unfold record, readOne, deleteOne.
  destruct (findDoc [Field "_id" id] (docs s)) as [[i d]|] eqn:E; [|done].
  apply findDoc_Some in E as [Hi Hm]. cbn [docs].
  apply (findDoc_delete_other _ _ i d Hi).
  rewrite matches_id in *. apply bool_decide_eq_true_1 in Hm.
  apply bool_decide_eq_false_2. congruence.
Qed.

Lemma findDoc_app_unmatched f l d :
  matches f d = false → snd <$> findDoc f (l ++ [d]) = snd <$> findDoc f l.
Proof.
  intros Hm. unfold findDoc.
  destruct (list_find (λ x, matches f x = true) l) as [[i x]|] eqn:E.
  - by rewrite (list_find_app_l _ _ _ _ _ E).
  - rewrite list_find_app_r by done. simpl. rewrite Hm.
    by destruct (decide (false = true)).
Qed.

Lemma findDoc_app_fresh f l d :
  findDoc f l = None → matches f d = true →
  snd <$> findDoc f (l ++ [d]) = Some d.
Proof.
  intros Hn Hm. unfold findDoc in *. rewrite list_find_app_r by done. simpl.
  by rewrite decide_True.
Qed.

Lemma uniqueIds_NoDup_docs s : uniqueIds s → NoDup (docs s).
Proof. intros [H _]. by eapply NoDup_fmap_1. Qed.

Lemma uniqueIds_same_id s d d' :
  uniqueIds s → d ∈ docs s → d' ∈ docs s → _id d = _id d' → d = d'.
Proof.
  intros Hs Hd Hd' E. pose proof (record_unique s d Hs Hd) as H.
  pose proof (record_unique s d' Hs Hd') as H'. rewrite E in H. congruence.
Qed.

Lemma record_elem id s d : record id s = Some d → d ∈ docs s ∧ _id d = id.
Proof. apply readOne_id_Some. Qed.

Lemma role_op_leaves_other_records op s id' :
  id' ≠ roleOpTarget op → record id' (execRole op s) = record id' s.
Proof.
  intros Hne. destruct op as [i u|i u|i u]; unfold execRole; simpl in Hne.
  - rewrite run_setToViewer. destruct (record i s); [|done].
    destruct (bool_decide _); [done|]. by apply record_updateOne_other.
  - rewrite run_setToEditor. destruct (record i s); [|done].
    destruct (bool_decide _); [done|]. by apply record_updateOne_other.
  - rewrite run_removeAccess. destruct (readOne _ s); [|done].
    destruct (bool_decide _); [by apply record_updateOne_other|].
    destruct (bool_decide _); [by apply record_updateOne_other|done].
Qed.

(** X3: [setToViewer], [setToEditor] and [removeAccess] change at most the
    record they are called for: whatever sequence of them is applied, a record
    that none of the calls addresses is read back exactly as before. *)
Theorem role_ops_leave_other_records (ops : list RoleOp) (s : DocCollection)
    (id' : ObjectId) :
  Forall (λ op, roleOpTarget op ≠ id') ops →
  record id' (execRoles ops s) = record id' s.
Proof.
  intros H. revert s. induction H as [|op ops Hop _ IH]; intros s; [done|].
  unfold execRoles in *. cbn [foldl]. rewrite IH.
  by apply role_op_leaves_other_records.
Qed.

Lemma role_ops_leave_other_records_witness :
  Forall (λ op, roleOpTarget op ≠ 0%N)
    [SetToViewer 1%N 30%N; SetToEditor 1%N 20%N; RemoveAccess 1%N 30%N]
  ∧ record 0%N (execRoles
      [SetToViewer 1%N 30%N; SetToEditor 1%N 20%N; RemoveAccess 1%N 30%N]
      (run (ById.addItem 11%N None None) viewerOnly).2)
    = record 0%N (run (ById.addItem 11%N None None) viewerOnly).2.
Proof.
  assert (Forall (λ op, roleOpTarget op ≠ 0%N)
    [SetToViewer 1%N 30%N; SetToEditor 1%N 20%N; RemoveAccess 1%N 30%N]) as H.
  { repeat constructor; simpl; lia. }
  split; [exact H|]. apply (role_ops_leave_other_records _ _ 0%N H).
Defined.

(** ** Granting, checking and granting again *)

Lemma setToViewer_record id user s d :
  record id s = Some d →
  ∃ d', record id (run (ById.setToViewer id user) s).2 = Some d'
      ∧ viewers d' = (if bool_decide (user ∈ viewers d) then viewers d
                      else viewers d ++ [user])
      ∧ editors d' = editors d ∧ owner d' = owner d.
Proof.
  intros Hrec. rewrite run_setToViewer, Hrec.
  destruct (bool_decide (user ∈ viewers d)) eqn:E; cbn [snd].
  - by exists d.
  - unfold record. rewrite readOne_updateOne_id. fold (record id s).
    rewrite Hrec. simpl. by eexists.
Qed.

Lemma setToEditor_record id user s d :
  record id s = Some d →
  ∃ d', record id (run (ById.setToEditor id user) s).2 = Some d'
      ∧ editors d' = (if bool_decide (user ∈ editors d) then editors d
                      else editors d ++ [user])
      ∧ viewers d' = viewers d ∧ owner d' = owner d.
Proof.
  intros Hrec. rewrite run_setToEditor, Hrec.
  destruct (bool_decide (user ∈ editors d)) eqn:E; cbn [snd].
  - by exists d.
  - unfold record. rewrite readOne_updateOne_id. fold (record id s).
    rewrite Hrec. simpl. by eexists.
Qed.

Lemma elem_of_granted (l : list ObjectId) u :
  u ∈ (if bool_decide (u ∈ l) then l else l ++ [u]).
Proof.
  destruct (bool_decide (u ∈ l)) eqn:E.
  - by apply bool_decide_eq_true_1 in E.
  - apply elem_of_app. right. by apply list_elem_of_singleton.
Qed.

(** X1: [setToEditor] is idempotent: without a record it throws [NotFound];
    on a record, a second call answers "already an editor" and leaves the
    registry as the first call left it. *)
Theorem setToEditor_is_idempotent (id user : ObjectId) (s : DocCollection) :
  (record id s = None →
   run (ById.setToEditor id user) s = (Rejected (notFound id), s))
  ∧ (is_Some (record id s) →
     let s1 := (run (ById.setToEditor id user) s).2 in
     run (ById.setToEditor id user) s1
     = (Fulfilled {| msg := toString user +:+ " is already an editor of "
                            +:+ toString id |}, s1)).
Proof.
  split.
  - intros H. by rewrite run_setToEditor, H.
  - intros [d Hrec] s1.
    destruct (setToEditor_record id user s d Hrec) as (d1 & Hrec1 & He1 & _).
    fold s1 in Hrec1. rewrite run_setToEditor, Hrec1.
    rewrite (bool_decide_eq_true_2 (user ∈ editors d1)); [done|].
    rewrite He1. apply elem_of_granted.
Qed.

(** X2: a grant is seen by the matching check and by no other: after
    [setToViewer(id, user)] on an existing record [isViewer(user, id)]
    passes and [isEditor] answers as before; after [setToEditor(id, user)]
    [isEditor(user, id)] passes and [isViewer] answers as before. *)
Theorem grant_then_check (id user other : ObjectId) (s : DocCollection) :
  is_Some (record id s) →
  (let s1 := (run (ById.setToViewer id user) s).2 in
   run (ById.isViewer user id) s1 = (Fulfilled (), s1)
   ∧ (run (ById.isEditor other id) s1).1 = (run (ById.isEditor other id) s).1
   ∧ (run (ById.isOwner other id) s1).1 = (run (ById.isOwner other id) s).1)
  ∧ (let s1 := (run (ById.setToEditor id user) s).2 in
     run (ById.isEditor user id) s1 = (Fulfilled (), s1)
     ∧ (run (ById.isViewer other id) s1).1 = (run (ById.isViewer other id) s).1
     ∧ (run (ById.isOwner other id) s1).1 = (run (ById.isOwner other id) s).1).
Proof.
  intros [d Hrec]. split.
  - destruct (setToViewer_record id user s d Hrec) as (d1 & Hrec1 & Hv1 & He1 & Ho1).
    intros s1. fold s1 in Hrec1.
    rewrite run_isViewer, !run_isEditor, !run_isOwner, Hrec1, Hrec. cbn [fst].
    rewrite He1, Ho1.
    by rewrite (bool_decide_eq_true_2 (user ∈ viewers d1))
      by (rewrite Hv1; apply elem_of_granted).
  - destruct (setToEditor_record id user s d Hrec) as (d1 & Hrec1 & He1 & Hv1 & Ho1).
    intros s1. fold s1 in Hrec1.
    rewrite run_isEditor, !run_isViewer, !run_isOwner, Hrec1, Hrec. cbn [fst].
    rewrite Hv1, Ho1.
    by rewrite (bool_decide_eq_true_2 (user ∈ editors d1))
      by (rewrite He1; apply elem_of_granted).
Qed.

Lemma grant_then_check_witness :
  is_Some (record 0%N viewerOnly)
  ∧ (let s1 := (run (ById.setToViewer 0%N 30%N) viewerOnly).2 in
     run (ById.isViewer 30%N 0%N) s1 = (Fulfilled (), s1)
     ∧ (run (ById.isEditor 30%N 0%N) s1).1 = (run (ById.isEditor 30%N 0%N) viewerOnly).1
     ∧ (run (ById.isOwner 30%N 0%N) s1).1 = (run (ById.isOwner 30%N 0%N) viewerOnly).1)
  ∧ (let s1 := (run (ById.setToEditor 0%N 30%N) viewerOnly).2 in
     run (ById.isEditor 30%N 0%N) s1 = (Fulfilled (), s1)
     ∧ (run (ById.isViewer 30%N 0%N) s1).1 = (run (ById.isViewer 30%N 0%N) viewerOnly).1
     ∧ (run (ById.isOwner 30%N 0%N) s1).1 = (run (ById.isOwner 30%N 0%N) viewerOnly).1).
Proof.
  assert (is_Some (record 0%N viewerOnly)) as H by (by eexists).
  split; [exact H|]. apply (grant_then_check 0%N 30%N 30%N viewerOnly H).
Defined.

Lemma setToEditor_is_idempotent_witness :
  (record 5%N viewerOnly = None →
   run (ById.setToEditor 5%N 30%N) viewerOnly = (Rejected (notFound 5%N), viewerOnly))
  ∧ is_Some (record 0%N viewerOnly)
  ∧ run (ById.setToEditor 0%N 30%N) (run (ById.setToEditor 0%N 30%N) viewerOnly).2
    = (Fulfilled {| msg := "30 is already an editor of 0" |},
       (run (ById.setToEditor 0%N 30%N) viewerOnly).2).
Proof.
  assert (is_Some (record 0%N viewerOnly)) as H by (by eexists).
  split; [apply (proj1 (setToEditor_is_idempotent 5%N 30%N viewerOnly))|].
  split; [exact H|].
  apply (proj2 (setToEditor_is_idempotent 0%N 30%N viewerOnly) H).
Defined.

(** ** Revoking for good *)

(** X4: [removeAccess] never throws and never ends without a reply: the
    record its filter selects holds the user as viewer or as editor, so one
    of the two removals runs and the [return]-less end of the method is never
    reached. *)
Theorem removeAccess_always_answers (id user : ObjectId) (s : DocCollection) :
  ∃ m, (run (ById.removeAccess id user) s).1 = Fulfilled (Some m).
Proof.
  rewrite run_removeAccess.
  destruct (readOne _ s) as [d|] eqn:E; [|by eexists].
  apply readOne_Some in E as [_ Hm]. rewrite matches_id_roles in Hm.
  apply andb_true_iff in Hm as [_ Hm].
  destruct (bool_decide (user ∈ viewers d)); [by eexists|].
  destruct (bool_decide (user ∈ editors d)); [by eexists|done].
Qed.

Lemma withoutFirst_NoDup u l : NoDup l → NoDup (withoutFirst u l).
Proof. apply splice1_NoDup. Qed.

Lemma withoutFirst_spec u l :
  NoDup l → u ∈ l →
  (u ∉ withoutFirst u l) ∧ ∀ x, x ≠ u → (x ∈ withoutFirst u l ↔ x ∈ l).
Proof.
  intros Hl Hu. unfold withoutFirst.
  destruct (findIndex_present l u Hu) as (i & -> & Hi).
  rewrite splice1_index. pose proof (delete_Permutation l i u Hi) as Hp.
  rewrite Hp in Hl. apply NoDup_cons in Hl as [Hnotin _]. split; [done|].
  intros x Hx. rewrite (Hp : l ≡ₚ _) at 2. rewrite elem_of_cons.
  split; [by right | by intros [?|?]].
Qed.

(** The record after one [removeAccess]. *)
Lemma removeAccess_record id user s d :
  uniqueIds s → record id s = Some d →
  ∃ d1, record id (run (ById.removeAccess id user) s).2 = Some d1
      ∧ owner d1 = owner d
      ∧ viewers d1 = (if bool_decide (user ∈ viewers d)
                      then withoutFirst user (viewers d) else viewers d)
      ∧ editors d1 = (if bool_decide (user ∈ viewers d) then editors d
                      else if bool_decide (user ∈ editors d)
                           then withoutFirst user (editors d) else editors d).
Proof.
  intros Hs Hrec. rewrite run_removeAccess.
  destruct (decide (user ∈ viewers d ∨ user ∈ editors d)) as [Hin|Hout].
  - destruct (record_findDoc id s d Hrec) as [i Hfind].
    assert (readOne [Field "_id" id; Or [("viewers", user); ("editors", user)]] s
            = Some d) as ->.
    { unfold readOne. by erewrite findDoc_id_roles. }
    destruct (bool_decide (user ∈ viewers d)) eqn:Ev; cbn [snd].
    + unfold record. rewrite readOne_updateOne_id. fold (record id s).
      rewrite Hrec. simpl. by eexists.
    + destruct (bool_decide (user ∈ editors d)) eqn:Ee; cbn [snd].
      * unfold record. rewrite readOne_updateOne_id. fold (record id s).
        rewrite Hrec. simpl. by eexists.
      * apply bool_decide_eq_false_1 in Ev, Ee. tauto.
  - rewrite removeAccess_filter_None; [|done|].
    + cbn [snd]. exists d.
      rewrite (bool_decide_eq_false_2 (user ∈ viewers d)) by tauto.
      by rewrite (bool_decide_eq_false_2 (user ∈ editors d)) by tauto.
    + intros d' Hd'. rewrite Hrec in Hd'. injection Hd' as <-. tauto.
Qed.

(** X5: two calls of [removeAccess] revoke everything: on a record whose role
    sets have no duplicates, after [removeAccess(id, user)] twice the user is
    neither viewer nor editor, so that [isViewer] and [isEditor] reject him
    with their own errors; the owner and all other members are as before. *)
Theorem removeAccess_twice_revokes (id user : ObjectId) (s : DocCollection)
    (d : ItemAccessDoc) :
  uniqueIds s →
  record id s = Some d →
  NoDup (viewers d) →
  NoDup (editors d) →
  let s2 := (run (ById.removeAccess id user)
               (run (ById.removeAccess id user) s).2).2 in
  ∃ d2, record id s2 = Some d2
      ∧ (user ∉ viewers d2) ∧ (user ∉ editors d2)
      ∧ owner d2 = owner d
      ∧ (∀ x, x ≠ user →
           (x ∈ viewers d2 ↔ x ∈ viewers d) ∧ (x ∈ editors d2 ↔ x ∈ editors d))
      ∧ run (ById.isViewer user id) s2
        = (Rejected (ItemViewerNotMatchError user id), s2)
      ∧ run (ById.isEditor user id) s2
        = (Rejected (ItemEditorNotMatchError user id), s2).
Proof.
  intros Hs Hrec Hv He s2.
  destruct (removeAccess_record id user s d Hs Hrec) as (d1 & Hrec1 & Ho1 & Hv1 & He1).
  assert (uniqueIds (run (ById.removeAccess id user) s).2) as Hs1
    by (by apply uniqueIds_run).
  destruct (removeAccess_record id user _ d1 Hs1 Hrec1)
    as (d2 & Hrec2 & Ho2 & Hv2 & He2).
  fold s2 in Hrec2.
  assert ((user ∉ viewers d2) ∧ (user ∉ editors d2)
          ∧ ∀ x, x ≠ user →
              (x ∈ viewers d2 ↔ x ∈ viewers d) ∧ (x ∈ editors d2 ↔ x ∈ editors d))
    as (Hnv & Hne & Hothers).
  { rewrite Hv2, He2, Hv1, He1.
    destruct (bool_decide (user ∈ viewers d)) eqn:Ev.
    - apply bool_decide_eq_true_1 in Ev.
      destruct (withoutFirst_spec user (viewers d) Hv Ev) as [Hgone Hkept].
      rewrite (bool_decide_eq_false_2 (user ∈ withoutFirst user (viewers d))) by done.
      destruct (bool_decide (user ∈ editors d)) eqn:Ee.
      + apply bool_decide_eq_true_1 in Ee.
        destruct (withoutFirst_spec user (editors d) He Ee) as [Hgone' Hkept'].
        split; [done|]. split; [done|]. intros x Hx. split; auto.
      + apply bool_decide_eq_false_1 in Ee.
        split; [done|]. split; [done|]. intros x Hx. split; auto.
    - apply bool_decide_eq_false_1 in Ev.
      rewrite (bool_decide_eq_false_2 (user ∈ viewers d)) by done.
      destruct (bool_decide (user ∈ editors d)) eqn:Ee.
      + apply bool_decide_eq_true_1 in Ee.
        destruct (withoutFirst_spec user (editors d) He Ee) as [Hgone' Hkept'].
        rewrite (bool_decide_eq_false_2 (user ∈ withoutFirst user (editors d)))
          by done.
        split; [done|]. split; [done|]. intros x Hx. split; auto.
      + rewrite Ee. apply bool_decide_eq_false_1 in Ee.
        split; [done|]. split; [done|]. intros x Hx. split; done. }
  exists d2. split; [done|]. split; [done|]. split; [done|].
  split; [congruence|]. split; [done|].
  rewrite run_isViewer, run_isEditor, Hrec2.
  rewrite (bool_decide_eq_false_2 (user ∈ viewers d2)) by done.
  by rewrite (bool_decide_eq_false_2 (user ∈ editors d2)) by done.
Qed.

Lemma removeAccess_twice_revokes_witness :
  uniqueIds viewerOnly
  ∧ record 0%N viewerOnly
    = Some {| _id := 0%N; item := None; owner := 10%N; editors := [];
              viewers := [20%N]; dateCreated := 0; dateUpdated := 0 |}
  ∧ ∃ d2, record 0%N (run (ById.removeAccess 0%N 20%N)
                        (run (ById.removeAccess 0%N 20%N) viewerOnly).2).2 = Some d2
        ∧ (20%N ∉ viewers d2) ∧ (20%N ∉ editors d2).
Proof.
  assert (uniqueIds viewerOnly) as Hs by (by apply (bool_decide_unpack _)).
  split; [exact Hs|]. split; [reflexivity|].
  destruct (removeAccess_twice_revokes 0%N 20%N viewerOnly
    {| _id := 0%N; item := None; owner := 10%N; editors := [];
       viewers := [20%N]; dateCreated := 0; dateUpdated := 0 |} Hs eq_refl)
    as (d2 & H1 & H2 & H3 & _).
  - cbn [viewers]. apply NoDup_singleton.
  - cbn [editors]. apply NoDup_nil_2.
  - exists d2. by repeat split.
Defined.

(** ** Deleting *)

(** X6: [deleteItem] removes the record and nothing else: afterwards every
    check and every grant on its identifier throws [NotFound], [removeAccess]
    answers "already restricted", and every other record is read back as
    before. *)
Theorem deleteItem_removes_the_record (id user : ObjectId) (s : DocCollection) :
  uniqueIds s →
  let s' := (run (ById.deleteItem id) s).2 in
  record id s' = None
  ∧ (∀ id', id' ≠ id → record id' s' = record id' s)
  ∧ run (ById.isViewer user id) s' = (Rejected (notFound id), s')
  ∧ run (ById.isEditor user id) s' = (Rejected (notFound id), s')
  ∧ run (ById.setToViewer id user) s' = (Rejected (notFound id), s')
  ∧ run (ById.setToEditor id user) s' = (Rejected (notFound id), s')
  ∧ run (ById.removeAccess id user) s'
    = (Fulfilled (Some {| msg := toString user +:+ " is already restricted from seeing "
                                 +:+ toString id |}), s').
Proof.
  intros Hs s'. unfold s'. rewrite run_deleteItem. cbn [snd].
  pose proof (record_deleteOne id s Hs) as Hgone.
  split; [done|]. split; [intros id' Hne; by apply record_deleteOne_other|].
  rewrite run_isViewer, run_isEditor, run_setToViewer, run_setToEditor, Hgone.
  repeat (split; [done|]).
  rewrite run_removeAccess, removeAccess_filter_None; [done| |].
  - by apply uniqueIds_deleteOne.
  - intros d Hd. by rewrite Hgone in Hd.
Qed.

Lemma deleteItem_removes_the_record_witness :
  uniqueIds viewerOnly
  ∧ record 0%N (run (ById.deleteItem 0%N) viewerOnly).2 = None
  ∧ run (ById.setToViewer 0%N 20%N) (run (ById.deleteItem 0%N) viewerOnly).2
    = (Rejected (notFound 0%N), (run (ById.deleteItem 0%N) viewerOnly).2).
Proof.
  assert (uniqueIds viewerOnly) as Hs by (by apply (bool_decide_unpack _)).
  split; [exact Hs|].
  destruct (deleteItem_removes_the_record 0%N 20%N viewerOnly Hs)
    as (H1 & _ & _ & _ & H2 & _).
  by split.
Defined.

Lemma findDoc_fresh_id s :
  uniqueIds s → findDoc [Field "_id" (nextId s)] (docs s) = None.
Proof.
  intros [_ Hlt]. apply list_find_None, Forall_forall. intros d Hd.
  rewrite matches_id. rewrite Forall_forall in Hlt. specialize (Hlt d Hd).
  intros H%bool_decide_eq_true_1. lia.
Qed.

(** X7: creating a record and deleting it again, by the identifier [addItem]
    replied with, leaves the documents of the registry exactly as they
    were. *)
Theorem addItem_then_deleteItem (s : DocCollection) (owner : ObjectId)
    (editors viewers : option (list ObjectId)) :
  uniqueIds s →
  ∃ d, addedItem_of (run (ById.addItem owner editors viewers) s) = Some d
     ∧ Doc.editors d = default [] editors
     ∧ Doc.viewers d = default [] viewers
     ∧ docs (run (ById.addItem owner editors viewers) s).2 = docs s ++ [d]
     ∧ docs (run (ById.deleteItem (_id d))
               (run (ById.addItem owner editors viewers) s).2).2 = docs s.
Proof.
  intros Hs. rewrite run_addItem. unfold addedItem_of. cbv zeta.
  cbn [fst snd addedItem].
  pose proof (record_createOne None owner (default [] editors) (default [] viewers)
                s Hs) as Hrec.
  eexists. split; [exact Hrec|]. cbn [Doc.editors Doc.viewers _id].
  split; [done|]. split; [done|]. split; [done|].
  rewrite run_deleteItem. cbn [snd]. unfold deleteOne. cbn [createOne snd docs].
  unfold findDoc. rewrite list_find_app_r by (by apply findDoc_fresh_id).
  cbn [list_find]. rewrite decide_True
    by (rewrite matches_id; by apply bool_decide_eq_true_2).
  cbn [fmap option_fmap option_map prod_map fst snd docs].
  replace (0 + length (docs s)) with (length (docs s)) by done.
  rewrite delete_middle. apply app_nil_r.
Qed.

Lemma addItem_then_deleteItem_witness :
  uniqueIds viewerOnly
  ∧ ∃ d, addedItem_of (run (ById.addItem 11%N None (Some [20%N])) viewerOnly) = Some d
       ∧ Doc.editors d = []
       ∧ Doc.viewers d = [20%N]
       ∧ docs (run (ById.addItem 11%N None (Some [20%N])) viewerOnly).2
         = docs viewerOnly ++ [d]
       ∧ docs (run (ById.deleteItem (_id d))
                 (run (ById.addItem 11%N None (Some [20%N])) viewerOnly).2).2
         = docs viewerOnly.
Proof.
  assert (uniqueIds viewerOnly) as Hs by (by apply (bool_decide_unpack _)).
  split; [exact Hs|].
  apply (addItem_then_deleteItem viewerOnly 11%N None (Some [20%N]) Hs).
Defined.

(** ** Listings *)

Lemma insertByDate_perm d l : insertByDate d l ≡ₚ d :: l.
Proof.
  induction l as [|x l IH]; simpl; [done|].
  destruct (Nat.leb (dateUpdated x) (dateUpdated d)); [done|].
  rewrite IH. apply Permutation_swap.
Qed.

Lemma sortByDateDesc_perm l : sortByDateDesc l ≡ₚ l.
Proof.
  unfold sortByDateDesc. induction l as [|x l IH]; simpl; [done|].
  by rewrite insertByDate_perm, IH.
Qed.

Lemma readMany_perm f o s :
  readMany f o s ≡ₚ filter (λ d, matches f d = true) (docs s).
Proof.
  unfold readMany. destruct o as [[]|]; [apply sortByDateDesc_perm | done].
Qed.

Lemma readMany_elem f o s d :
  d ∈ readMany f o s ↔ d ∈ docs s ∧ matches f d = true.
Proof. rewrite readMany_perm, list_elem_of_filter. tauto. Qed.

Lemma readMany_NoDup f o s : uniqueIds s → NoDup (readMany f o s).
Proof.
  intros Hs. rewrite readMany_perm. apply NoDup_filter.
  by apply uniqueIds_NoDup_docs.
Qed.

(** ** Loops of updates *)

Section bulk.
Context (s0 : DocCollection) (items0 : list ItemAccessDoc).
Context (c : ItemAccessDoc → bool) (U : ItemAccessDoc → Update).
Context (body : ItemAccessDoc → Async unit).
Context (E V : ItemAccessDoc → list ObjectId).
Hypothesis Hs0 : uniqueIds s0.
Hypothesis Hsub : ∀ x, x ∈ items0 → x ∈ docs s0.
Hypothesis Hnd : NoDup items0.
Hypothesis Hbody : ∀ x s,
  run (body x) s
  = (Fulfilled (), if c x then updateOne [Field "_id" (_id x)] (U x) s else s).
Hypothesis HE_in : ∀ x, x ∈ items0 →
  E x = if c x then default (editors x) (setEditors (U x)) else editors x.
Hypothesis HV_in : ∀ x, x ∈ items0 →
  V x = if c x then default (viewers x) (setViewers (U x)) else viewers x.
Hypothesis HE_out : ∀ d, d ∈ docs s0 → d ∉ items0 → E d = editors d.
Hypothesis HV_out : ∀ d, d ∈ docs s0 → d ∉ items0 → V d = viewers d.

(** A loop over a snapshot of records that rewrites the role sets of each,
    by its identifier, from the snapshot: when it ends, every record holds
    what its own round wrote, and the records outside the snapshot hold what
    they held. *)
Lemma forOf_bulk rem s1 :
  (∃ seen, items0 = seen ++ rem) →
  uniqueIds s1 →
  (∀ d, d ∈ docs s0 →
     ∃ d', record (_id d) s1 = Some d' ∧ owner d' = owner d
         ∧ editors d' = (if bool_decide (d ∈ rem) then editors d else E d)
         ∧ viewers d' = (if bool_decide (d ∈ rem) then viewers d else V d)) →
  (run (ByItem.forOf rem body) s1).1 = Fulfilled ()
  ∧ uniqueIds (run (ByItem.forOf rem body) s1).2
  ∧ owners (run (ByItem.forOf rem body) s1).2 = owners s1
  ∧ ∀ d, d ∈ docs s0 →
      ∃ d', record (_id d) (run (ByItem.forOf rem body) s1).2 = Some d'
          ∧ owner d' = owner d ∧ editors d' = E d ∧ viewers d' = V d.
Proof.
  revert s1. induction rem as [|x rem IH]; intros s1 [seen Hseen] Hs1 Hinv.
  { simpl. split; [done|]. split; [done|]. split; [done|].
    intros d Hd. destruct (Hinv d Hd) as (d' & ? & ? & He & Hv).
    rewrite bool_decide_eq_false_2 in He, Hv by (by intros ?%elem_of_nil).
    by exists d'. }
  assert (x ∈ items0) as Hx.
  { rewrite Hseen. apply elem_of_app. right. left. }
  assert (x ∉ rem) as Hxrem.
  { rewrite Hseen in Hnd. apply NoDup_app in Hnd as (_ & _ & Hnd').
    by apply NoDup_cons in Hnd' as [? _]. }
  cbn [ByItem.forOf]. unfold mbind, Async_bind. rewrite run_bind, Hbody.
  cbn [fst snd].
  set (s2 := if c x then updateOne [Field "_id" (_id x)] (U x) s1 else s1).
  assert (uniqueIds s2) as Hs2.
  { unfold s2. destruct (c x); [by apply uniqueIds_updateOne | done]. }
  assert (owners s2 = owners s1) as Ho2.
  { unfold s2. destruct (c x); [apply owners_updateOne | done]. }
  destruct (IH s2) as (H1 & H2 & H3 & H4); [| done | | by rewrite H3].
  { exists (seen ++ [x]). by rewrite <- app_assoc. }
  intros d Hd. destruct (Hinv d Hd) as (d1 & Hrec1 & Ho1 & He1 & Hv1).
  destruct (decide (d = x)) as [->|Hdx].
  - rewrite (bool_decide_eq_true_2 (x ∈ x :: rem)) in He1, Hv1 by left.
    rewrite (bool_decide_eq_false_2 (x ∈ rem)) by done.
    rewrite (HE_in x Hx), (HV_in x Hx). unfold s2. destruct (c x).
    + unfold record. rewrite readOne_updateOne_id. fold (record (_id x) s1).
      rewrite Hrec1. simpl. eexists. split; [done|]. simpl.
      by rewrite He1, Hv1.
    + by exists d1.
  - assert (_id d ≠ _id x) as Hid.
    { intros E'. apply Hdx. apply (uniqueIds_same_id s0); auto. }
    assert (record (_id d) s2 = record (_id d) s1) as ->.
    { unfold s2. destruct (c x); [by apply record_updateOne_other | done]. }
    exists d1. split; [done|]. split; [done|].
    rewrite He1, Hv1.
    destruct (decide (d ∈ rem)) as [Hr|Hr].
    + rewrite (bool_decide_eq_true_2 (d ∈ x :: rem)) by (by right).
      by rewrite (bool_decide_eq_true_2 (d ∈ rem)).
    + rewrite (bool_decide_eq_false_2 (d ∈ x :: rem))
        by (intros [?|?]%elem_of_cons; done).
      by rewrite (bool_decide_eq_false_2 (d ∈ rem)).
Qed.

Lemma forOf_bulk_all :
  (run (ByItem.forOf items0 body) s0).1 = Fulfilled ()
  ∧ uniqueIds (run (ByItem.forOf items0 body) s0).2
  ∧ owners (run (ByItem.forOf items0 body) s0).2 = owners s0
  ∧ ∀ d, d ∈ docs s0 →
      ∃ d', record (_id d) (run (ByItem.forOf items0 body) s0).2 = Some d'
          ∧ owner d' = owner d ∧ editors d' = E d ∧ viewers d' = V d.
Proof.
  apply forOf_bulk; [by exists [] | done |].
  intros d Hd. exists d. split; [by apply record_unique|]. split; [done|].
  destruct (decide (d ∈ items0)) as [Hin|Hout].
  - by rewrite (bool_decide_eq_true_2 (d ∈ items0)).
  - rewrite (bool_decide_eq_false_2 (d ∈ items0)) by done.
    by rewrite HE_out, HV_out.
Qed.

End bulk.

(** ** The bulk operations *)

Lemma setToViewerAllItems_records o u s :
  uniqueIds s →
  (run (ByItem.setToViewerAllItems o u) s).1
  = Fulfilled {| msg := "Access to all items successfully updated!" |}
  ∧ uniqueIds (run (ByItem.setToViewerAllItems o u) s).2
  ∧ owners (run (ByItem.setToViewerAllItems o u) s).2 = owners s
  ∧ ∀ d, d ∈ docs s →
      ∃ d', record (_id d) (run (ByItem.setToViewerAllItems o u) s).2 = Some d'
          ∧ owner d' = owner d ∧ editors d' = editors d
          ∧ viewers d' = viewersGranted o u d.
Proof.
  intros Hs. unfold ByItem.setToViewerAllItems, ByItem.getItemsByOwner,
    ByItem.getItems. unfold_async. rewrite run_bind.
  match goal with
  | |- context [run (ByItem.forOf ?items ?body) s] =>
      destruct (forOf_bulk_all s items
        (λ x, negb (bool_decide (u ∈ viewers x)))
        (λ x, {| setEditors := None; setViewers := Some (viewers x ++ [u]) |})
        body editors (viewersGranted o u) Hs) as (H1 & H2 & H3 & H4)
  end.
  - intros x Hx. by apply readMany_elem in Hx as [? _].
  - by apply readMany_NoDup.
  - intros x s1. rewrite some_toString.
    by destruct (bool_decide (u ∈ viewers x)).
  - intros x _. by destruct (negb _).
  - intros x Hx. apply readMany_elem in Hx as [_ Hm].
    rewrite matches_owner in Hm. unfold viewersGranted. rewrite Hm. simpl.
    by destruct (negb _).
  - done.
  - intros d Hd Hout. unfold viewersGranted.
    destruct (bool_decide (owner d = o)) eqn:Eo; [|done].
    destruct Hout. apply readMany_elem. split; [done|].
    by rewrite matches_owner.
  - rewrite H1. cbn [fst snd]. done.
Qed.

Lemma run_removeAccessAllItems_body u x s :
  run (if negb (findIndex (toString <$> viewers x)
                  (λ viewerString, String.eqb viewerString (toString u)) =? -1)%Z
       then accessList.updateOne [Field "_id" (_id x)]
              {| setEditors := None;
                 setViewers := Some (splice1 (viewers x)
                   (findIndex (toString <$> viewers x)
                      (λ viewerString, String.eqb viewerString (toString u)))) |}
       else accessList.updateOne [Field "_id" (_id x)]
              {| setEditors := Some (splice1 (editors x)
                   (findIndex (toString <$> editors x)
                      (λ editorString, String.eqb editorString (toString u))));
                 setViewers := None |}) s
  = (Fulfilled (),
     updateOne [Field "_id" (_id x)]
       (if bool_decide (u ∈ viewers x)
        then {| setEditors := None; setViewers := Some (withoutFirst u (viewers x)) |}
        else {| setEditors := Some (withoutFirst u (editors x)); setViewers := None |})
       s).
Proof.
  rewrite !findIndex_toString, findIndex_found. unfold withoutFirst.
  by destruct (bool_decide (u ∈ viewers x)).
Qed.

Lemma removeAccessAllItems_records o u s :
  uniqueIds s →
  (run (ByItem.removeAccessAllItems o u) s).1
  = Fulfilled {| msg := "Access for " +:+ toString u +:+ " was successfully updated!" |}
  ∧ uniqueIds (run (ByItem.removeAccessAllItems o u) s).2
  ∧ owners (run (ByItem.removeAccessAllItems o u) s).2 = owners s
  ∧ ∀ d, d ∈ docs s →
      ∃ d', record (_id d) (run (ByItem.removeAccessAllItems o u) s).2 = Some d'
          ∧ owner d' = owner d ∧ editors d' = editorsRevoked o u d
          ∧ viewers d' = viewersRevoked o u d.
Proof.
  intros Hs. unfold ByItem.removeAccessAllItems. unfold_async. rewrite run_bind.
  match goal with
  | |- context [run (ByItem.forOf ?items ?body) s] =>
      destruct (forOf_bulk_all s items (λ _, true)
        (λ x, if bool_decide (u ∈ viewers x)
              then {| setEditors := None;
                      setViewers := Some (withoutFirst u (viewers x)) |}
              else {| setEditors := Some (withoutFirst u (editors x));
                      setViewers := None |})
        body (editorsRevoked o u) (viewersRevoked o u) Hs) as (H1 & H2 & H3 & H4)
  end.
  - intros x Hx. by apply readMany_elem in Hx as [? _].
  - by apply readMany_NoDup.
  - intros x s1. apply run_removeAccessAllItems_body.
  - intros x Hx. apply readMany_elem in Hx as [_ Hm].
    rewrite matches_owner_roles in Hm. apply andb_true_iff in Hm as [Ho Hr].
    unfold editorsRevoked. rewrite Ho. simpl.
    destruct (bool_decide (u ∈ viewers x)); simpl in *; [done|]. by rewrite Hr.
  - intros x Hx. apply readMany_elem in Hx as [_ Hm].
    rewrite matches_owner_roles in Hm. apply andb_true_iff in Hm as [Ho Hr].
    unfold viewersRevoked. rewrite Ho. simpl.
    by destruct (bool_decide (u ∈ viewers x)).
  - intros d Hd Hout. unfold editorsRevoked.
    destruct (bool_decide (owner d = o)) eqn:Eo; [|done].
    destruct (bool_decide (u ∈ viewers d)) eqn:Ev; [done|].
    destruct (bool_decide (u ∈ editors d)) eqn:Ee; [|done].
    destruct Hout. apply readMany_elem. split; [done|].
    by rewrite matches_owner_roles, Eo, Ev, Ee.
  - intros d Hd Hout. unfold viewersRevoked.
    destruct (bool_decide (owner d = o)) eqn:Eo; [|done].
    destruct (bool_decide (u ∈ viewers d)) eqn:Ev; [|done].
    destruct Hout. apply readMany_elem. split; [done|].
    by rewrite matches_owner_roles, Eo, Ev.
  - rewrite H1. cbn [fst snd]. done.
Qed.

Lemma viewersGranted_elem o u d : owner d = o → u ∈ viewersGranted o u d.
Proof.
  intros Ho. unfold viewersGranted.
  rewrite (bool_decide_eq_true_2 (owner d = o)) by done. simpl.
  destruct (bool_decide (u ∈ viewers d)) eqn:E; simpl.
  - by apply bool_decide_eq_true_1 in E.
  - apply elem_of_app. right. by apply list_elem_of_singleton.
Qed.

(** X9: [setToViewerAllItems(owner, user)] is fulfilled and makes the user a
    viewer of every record of the owner, appending him where he is not one
    yet; it changes no editors, no owner and no record of another owner, and a
    second call changes no role set any more. *)
Theorem setToViewerAllItems_grants (o u : ObjectId) (s : DocCollection) :
  uniqueIds s →
  let s1 := (run (ByItem.setToViewerAllItems o u) s).2 in
  let s2 := (run (ByItem.setToViewerAllItems o u) s1).2 in
  (run (ByItem.setToViewerAllItems o u) s).1
  = Fulfilled {| msg := "Access to all items successfully updated!" |}
  ∧ owners s1 = owners s
  ∧ ∀ d, d ∈ docs s →
      ∃ d1, record (_id d) s1 = Some d1
          ∧ editors d1 = editors d
          ∧ (owner d = o → u ∈ viewers d1)
          ∧ (owner d = o → u ∈ viewers d → viewers d1 = viewers d)
          ∧ (owner d = o → u ∉ viewers d → viewers d1 = viewers d ++ [u])
          ∧ (owner d ≠ o → viewers d1 = viewers d)
          ∧ ∃ d2, record (_id d) s2 = Some d2
                ∧ editors d2 = editors d1 ∧ viewers d2 = viewers d1.
Proof.
  intros Hs s1 s2.
  destruct (setToViewerAllItems_records o u s Hs) as (H1 & Hs1 & Ho1 & Hrec1).
  fold s1 in Hs1, Ho1, Hrec1.
  destruct (setToViewerAllItems_records o u s1 Hs1) as (_ & _ & _ & Hrec2).
  fold s2 in Hrec2.
  split; [done|]. split; [done|]. intros d Hd.
  destruct (Hrec1 d Hd) as (d1 & Hr1 & Hown1 & He1 & Hv1).
  exists d1. split; [done|]. split; [done|].
  split; [intros Ho; rewrite Hv1; by apply viewersGranted_elem|].
  split; [|split; [|split]].
  - intros Ho Hu. rewrite Hv1. unfold viewersGranted.
    rewrite (bool_decide_eq_true_2 (u ∈ viewers d)) by done.
    by rewrite andb_false_r.
  - intros Ho Hu. rewrite Hv1. unfold viewersGranted.
    rewrite (bool_decide_eq_true_2 (owner d = o)) by done.
    by rewrite (bool_decide_eq_false_2 (u ∈ viewers d)) by done.
  - intros Ho. rewrite Hv1. unfold viewersGranted.
    by rewrite (bool_decide_eq_false_2 (owner d = o)) by done.
  - apply record_elem in Hr1 as Hd1. destruct Hd1 as [Hd1 Hid1].
    destruct (Hrec2 d1 Hd1) as (d2 & Hr2 & _ & He2 & Hv2).
    rewrite Hid1 in Hr2. exists d2. split; [done|]. split; [done|].
    rewrite Hv2. unfold viewersGranted at 1.
    destruct (bool_decide (owner d1 = o)) eqn:Eo; [|done].
    apply bool_decide_eq_true_1 in Eo.
    rewrite (bool_decide_eq_true_2 (u ∈ viewers d1)); [done|].
    rewrite Hv1. apply viewersGranted_elem. congruence.
Qed.

Lemma setToViewerAllItems_grants_witness :
  uniqueIds twoItems
  ∧ (run (ByItem.setToViewerAllItems 10%N 30%N) twoItems).1
    = Fulfilled {| msg := "Access to all items successfully updated!" |}
  ∧ roleSets (run (ByItem.setToViewerAllItems 10%N 30%N) twoItems).2
    = [(0%N, [], [20%N; 30%N]); (1%N, [20%N], [30%N])].
Proof.
  assert (uniqueIds twoItems) as Hs by (by apply (bool_decide_unpack _)).
  split; [exact Hs|].
  split; [apply (setToViewerAllItems_grants 10%N 30%N twoItems Hs)|].
  vm_compute. reflexivity.
Defined.

(** X10: [removeAccessAllItems(owner, user)] is fulfilled and takes one role
    away in every record of the owner that holds the user: the viewer entry
    if there is one, else the editor entry; so a user who is both viewer and
    editor of a record is still its editor afterwards.  Owners, records of
    other owners and records that did not hold the user are as before. *)
Theorem removeAccessAllItems_revokes (o u : ObjectId) (s : DocCollection) :
  uniqueIds s →
  roleSetsNoDup s →
  let s1 := (run (ByItem.removeAccessAllItems o u) s).2 in
  (run (ByItem.removeAccessAllItems o u) s).1
  = Fulfilled {| msg := "Access for " +:+ toString u +:+ " was successfully updated!" |}
  ∧ owners s1 = owners s
  ∧ ∀ d, d ∈ docs s →
      ∃ d1, record (_id d) s1 = Some d1
          ∧ (owner d = o → u ∈ viewers d →
               (u ∉ viewers d1) ∧ editors d1 = editors d
               ∧ ∀ x, x ≠ u → (x ∈ viewers d1 ↔ x ∈ viewers d))
          ∧ (owner d = o → u ∉ viewers d → u ∈ editors d →
               (u ∉ editors d1) ∧ viewers d1 = viewers d
               ∧ ∀ x, x ≠ u → (x ∈ editors d1 ↔ x ∈ editors d))
          ∧ (owner d ≠ o ∨ ((u ∉ viewers d) ∧ (u ∉ editors d)) →
               viewers d1 = viewers d ∧ editors d1 = editors d).
Proof.
  intros Hs Hnd s1.
  destruct (removeAccessAllItems_records o u s Hs) as (H1 & Hs1 & Ho1 & Hrec1).
  fold s1 in Hs1, Ho1, Hrec1.
  split; [done|]. split; [done|]. intros d Hd.
  destruct (roleSetsNoDup_elem s d Hnd Hd) as [Hde Hdv].
  destruct (Hrec1 d Hd) as (d1 & Hr1 & Hown1 & He1 & Hv1).
  exists d1. split; [done|]. rewrite He1, Hv1.
  unfold editorsRevoked, viewersRevoked. split; [|split].
  - intros Ho Hu.
    rewrite (bool_decide_eq_true_2 (owner d = o)) by done.
    rewrite (bool_decide_eq_true_2 (u ∈ viewers d)) by done. simpl.
    destruct (withoutFirst_spec u (viewers d) Hdv Hu) as [Hgone Hkept].
    split; [done|]. split; [done|]. exact Hkept.
  - intros Ho Hu Hu'.
    rewrite (bool_decide_eq_true_2 (owner d = o)) by done.
    rewrite (bool_decide_eq_false_2 (u ∈ viewers d)) by done.
    rewrite (bool_decide_eq_true_2 (u ∈ editors d)) by done. simpl.
    destruct (withoutFirst_spec u (editors d) Hde Hu') as [Hgone Hkept].
    split; [done|]. split; [done|]. exact Hkept.
  - intros [Ho|[Hu Hu']].
    + by rewrite (bool_decide_eq_false_2 (owner d = o)) by done.
    + rewrite (bool_decide_eq_false_2 (u ∈ viewers d)) by done.
      rewrite (bool_decide_eq_false_2 (u ∈ editors d)) by done.
      by rewrite !andb_false_r.
Qed.

Lemma removeAccessAllItems_revokes_witness :
  uniqueIds twoItems
  ∧ roleSetsNoDup twoItems
  ∧ (run (ByItem.removeAccessAllItems 10%N 20%N) twoItems).1
    = Fulfilled {| msg := "Access for 20 was successfully updated!" |}
  ∧ roleSets (run (ByItem.removeAccessAllItems 10%N 20%N) twoItems).2
    = [(0%N, [], []); (1%N, [], [])].
Proof.
  assert (uniqueIds twoItems) as Hs by (by apply (bool_decide_unpack _)).
  assert (roleSetsNoDup twoItems) as Hnd by (by apply (bool_decide_unpack _)).
  split; [exact Hs|]. split; [exact Hnd|].
  split; [apply (removeAccessAllItems_revokes 10%N 20%N twoItems Hs Hnd)|].
  vm_compute. reflexivity.
Defined.

Lemma withoutFirst_pushed u l : u ∉ l → withoutFirst u (l ++ [u]) = l.
Proof.
  intros Hu. unfold withoutFirst. rewrite findIndex_pushed by done.
  apply splice1_pushed.
Qed.

(** X11: granting and revoking in bulk is a round trip: when the user is a
    viewer of none of the owner's records, [setToViewerAllItems(owner, user)]
    followed by [removeAccessAllItems(owner, user)] gives every record the
    owner, editors and viewers it had. *)
Theorem setToViewerAllItems_then_removeAccessAllItems (o u : ObjectId)
    (s : DocCollection) :
  uniqueIds s →
  (∀ d, d ∈ docs s → owner d = o → u ∉ viewers d) →
  let s2 := (run (ByItem.removeAccessAllItems o u)
               (run (ByItem.setToViewerAllItems o u) s).2).2 in
  owners s2 = owners s
  ∧ ∀ d, d ∈ docs s →
      ∃ d2, record (_id d) s2 = Some d2
          ∧ owner d2 = owner d ∧ editors d2 = editors d ∧ viewers d2 = viewers d.
Proof.
  intros Hs Hfresh s2.
  destruct (setToViewerAllItems_records o u s Hs) as (_ & Hs1 & Ho1 & Hrec1).
  destruct (removeAccessAllItems_records o u _ Hs1) as (_ & _ & Ho2 & Hrec2).
  fold s2 in Ho2, Hrec2. split; [congruence|]. intros d Hd.
  destruct (Hrec1 d Hd) as (d1 & Hr1 & Hown1 & He1 & Hv1).
  apply record_elem in Hr1 as [Hd1 Hid1].
  destruct (Hrec2 d1 Hd1) as (d2 & Hr2 & Hown2 & He2 & Hv2).
  rewrite Hid1 in Hr2. exists d2. split; [done|]. split; [congruence|].
  rewrite He2, Hv2. unfold editorsRevoked, viewersRevoked.
  rewrite Hown1, Hv1, He1. unfold viewersGranted.
  destruct (bool_decide (owner d = o)) eqn:Eo; simpl; [|done].
  apply bool_decide_eq_true_1 in Eo. specialize (Hfresh d Hd Eo).
  rewrite (bool_decide_eq_false_2 (u ∈ viewers d)) by done. simpl.
  rewrite (bool_decide_eq_true_2 (u ∈ viewers d ++ [u]))
    by (apply elem_of_app; right; by apply list_elem_of_singleton).
  simpl. split; [done|]. by apply withoutFirst_pushed.
Qed.

Lemma setToViewerAllItems_then_removeAccessAllItems_witness :
  uniqueIds twoItems
  ∧ (∀ d, d ∈ docs twoItems → owner d = 10%N → 30%N ∉ viewers d)
  ∧ roleSets (run (ByItem.removeAccessAllItems 10%N 30%N)
               (run (ByItem.setToViewerAllItems 10%N 30%N) twoItems).2).2
    = roleSets twoItems
  ∧ owners (run (ByItem.removeAccessAllItems 10%N 30%N)
              (run (ByItem.setToViewerAllItems 10%N 30%N) twoItems).2).2
    = owners twoItems.
Proof.
  assert (uniqueIds twoItems) as Hs by (by apply (bool_decide_unpack _)).
  assert (∀ d, d ∈ docs twoItems → owner d = 10%N → 30%N ∉ viewers d) as Hf.
  { intros d Hd _. change (docs twoItems) with
      [ {| _id := 0%N; item := Some 7%N; owner := 10%N; editors := [];
           viewers := [20%N]; dateCreated := 0; dateUpdated := 0 |};
        {| _id := 1%N; item := Some 8%N; owner := 10%N; editors := [20%N];
           viewers := []; dateCreated := 1; dateUpdated := 1 |} ] in Hd.
    apply elem_of_cons in Hd as [->|Hd].
    - cbn [viewers]. intros H%list_elem_of_singleton. done.
    - apply list_elem_of_singleton in Hd as ->. cbn [viewers].
      by intros ?%elem_of_nil. }
  split; [exact Hs|]. split; [exact Hf|].
  split; [vm_compute; reflexivity|].
  apply (setToViewerAllItems_then_removeAccessAllItems 10%N 30%N twoItems Hs Hf).
Defined.

(** ** Listing the records of an owner *)

Lemma insertByDate_latestFirst d l : latestFirst l → latestFirst (insertByDate d l).
Proof.
  induction l as [|x l IH]; simpl; [done|]. intros [Hx Hl].
  destruct (Nat.leb_spec (dateUpdated x) (dateUpdated d)) as [Hle|Hlt]; simpl.
  - split; [|done]. constructor; [done|].
    eapply Forall_impl; [exact Hx|]. simpl. intros y Hy. lia.
  - split; [|by apply IH]. rewrite insertByDate_perm.
    constructor; [lia | done].
Qed.

Lemma sortByDateDesc_latestFirst l : latestFirst (sortByDateDesc l).
Proof.
  unfold sortByDateDesc. induction l as [|x l IH]; simpl; [done|].
  by apply insertByDate_latestFirst.
Qed.

(** X16: [getItemsByOwner] changes nothing and answers with exactly the
    records of the owner, each once if identifiers are unique, the latest
    updated first. *)
Theorem getItemsByOwner_lists_the_owner_records (o : ObjectId) (s : DocCollection) :
  ∃ items, run (ById.getItemsByOwner o) s = (Fulfilled items, s)
         ∧ run (ByItem.getItemsByOwner o) s = (Fulfilled items, s)
         ∧ (∀ d, d ∈ items ↔ d ∈ docs s ∧ owner d = o)
         ∧ items ≡ₚ filter (λ d, owner d = o) (docs s)
         ∧ latestFirst items
         ∧ (uniqueIds s → NoDup items).
Proof.
  exists (readMany [Field "owner" o] (Some dateUpdatedDescending) s).
  split; [done|]. split; [done|]. split; [|split; [|split]].
  - intros d. rewrite readMany_elem, matches_owner, bool_decide_eq_true. done.
  - rewrite readMany_perm.
    rewrite (list_filter_iff _ (λ d, owner d = o)); [done|].
    intros d. by rewrite matches_owner, bool_decide_eq_true.
  - apply sortByDateDesc_latestFirst.
  - apply readMany_NoDup.
Qed.

(** ** One decision, three checks *)

(** X15: the decision of [canView] on a record is the union of the strict
    checks: [hasItemAccess] holds for a user exactly when [isOwner],
    [isViewer] or [isEditor] passes for him on that record, and fails exactly
    when the three reject him with their own errors. *)
Theorem hasItemAccess_iff_a_check_passes (id user : ObjectId) (s : DocCollection)
    (d : ItemAccessDoc) :
  record id s = Some d →
  (ByItem.hasItemAccess d user = true
   ↔ (run (ById.isOwner user id) s).1 = Fulfilled ()
     ∨ (run (ById.isViewer user id) s).1 = Fulfilled ()
     ∨ (run (ById.isEditor user id) s).1 = Fulfilled ())
  ∧ (ByItem.hasItemAccess d user = false
     ↔ (run (ById.isOwner user id) s).1 = Rejected (ItemOwnerNotMatchError user id)
       ∧ (run (ById.isViewer user id) s).1 = Rejected (ItemViewerNotMatchError user id)
       ∧ (run (ById.isEditor user id) s).1 = Rejected (ItemEditorNotMatchError user id)).
Proof.
  intros Hrec. rewrite run_isOwner, run_isViewer, run_isEditor, Hrec. cbn [fst].
  unfold ByItem.hasItemAccess.
  rewrite eqb_toString, !includes_toString.
  destruct (bool_decide (owner d = user)), (bool_decide (user ∈ viewers d)),
    (bool_decide (user ∈ editors d)); simpl; split; split;
    try tauto; try done; try (intros [?|[?|?]]; done); try (intros (?&?&?); done).
Qed.

Lemma hasItemAccess_iff_a_check_passes_witness :
  record 0%N viewerOnly
  = Some {| _id := 0%N; item := None; owner := 10%N; editors := [];
            viewers := [20%N]; dateCreated := 0; dateUpdated := 0 |}
  ∧ (ByItem.hasItemAccess
       {| _id := 0%N; item := None; owner := 10%N; editors := [];
          viewers := [20%N]; dateCreated := 0; dateUpdated := 0 |} 20%N = true
     ↔ (run (ById.isOwner 20%N 0%N) viewerOnly).1 = Fulfilled ()
       ∨ (run (ById.isViewer 20%N 0%N) viewerOnly).1 = Fulfilled ()
       ∨ (run (ById.isEditor 20%N 0%N) viewerOnly).1 = Fulfilled ()).
Proof.
  split; [reflexivity|].
  apply (hasItemAccess_iff_a_check_passes 0%N 20%N viewerOnly _ eq_refl).
Defined.

Lemma getItemsByOwner_lists_the_owner_records_witness :
  uniqueIds twoItems
  ∧ ∃ items, run (ById.getItemsByOwner 10%N) twoItems = (Fulfilled items, twoItems)
           ∧ (∀ d, d ∈ items ↔ d ∈ docs twoItems ∧ owner d = 10%N)
           ∧ latestFirst items
           ∧ NoDup items.
Proof.
  assert (uniqueIds twoItems) as Hs by (by apply (bool_decide_unpack _)).
  split; [exact Hs|].
  destruct (getItemsByOwner_lists_the_owner_records 10%N twoItems)
    as (items & H1 & _ & H2 & _ & H3 & H4).
  exists items. split; [done|]. split; [done|]. split; [done|]. by apply H4.
Defined.

(** ** Records by item *)

Lemma readOne_createOne f i o es vs s :
  readOne f (createOne i o es vs s).2
  = match readOne f s with
    | Some d0 => Some d0
    | None =>
        let d := {| _id := nextId s; item := i; owner := o; editors := es;
                    viewers := vs; dateCreated := clock s; dateUpdated := clock s |} in
        if matches f d then Some d else None
    end.
Proof.
  unfold readOne. cbn [createOne snd docs].
  destruct (findDoc f (docs s)) as [[j x]|] eqn:E; simpl.
  - unfold findDoc in *. by rewrite (list_find_app_l _ _ _ _ _ E).
  - destruct (matches f _) eqn:Em.
    + by apply findDoc_app_fresh.
    + rewrite findDoc_app_unmatched by done. by rewrite E.
Qed.

Lemma run_second_addItem it o es vs s :
  run (ByItem.addItem it o es vs) s =
  let s' := (createOne (Some it) o (default [] es) (default [] vs) s).2 in
  (Fulfilled {| addedMsg := "Item successfully added!";
                addedItem := record (nextId s) s' |}, s').
Proof. reflexivity. Qed.

Lemma run_second_deleteItem it s :
  run (ByItem.deleteItem it) s =
  (Fulfilled {| msg := "Item deleted successfully!" |}, deleteOne [Field "item" it] s).
Proof. reflexivity. Qed.

(** X8: in the second class the owner of an item is the owner of its first
    record.  After [addItem(item, u)] for an item without record,
    [isOwner(u, item)] passes and [isOwner(v, item)] rejects every other [v];
    for an item that has a record already, [addItem] adds a second one and
    [isOwner] goes on answering as before. *)
Theorem second_addItem_then_isOwner (s : DocCollection) (it u : ObjectId)
    (es vs : option (list ObjectId)) :
  let s' := (run (ByItem.addItem it u es vs) s).2 in
  (readOne [Field "item" it] s = None →
   run (ByItem.isOwner u it) s' = (Fulfilled (), s')
   ∧ ∀ v, v ≠ u →
       run (ByItem.isOwner v it) s' = (Rejected (ItemOwnerNotMatchError v it), s'))
  ∧ (is_Some (readOne [Field "item" it] s) →
     length (docs s') = S (length (docs s))
     ∧ ∀ v, (run (ByItem.isOwner v it) s').1 = (run (ByItem.isOwner v it) s).1).
Proof.
  intros s'. unfold s'. rewrite run_second_addItem. cbv zeta. cbn [snd]. split.
  - intros Hnone. rewrite !run_second_isOwner, readOne_createOne, Hnone.
    cbv zeta. rewrite matches_item. cbn [item].
    rewrite (bool_decide_eq_true_2 (Some it = Some it)) by done. cbn [owner].
    split; [by rewrite bool_decide_eq_true_2|].
    intros v Hv. rewrite run_second_isOwner, readOne_createOne, Hnone.
    cbv zeta. rewrite matches_item. cbn [item].
    rewrite (bool_decide_eq_true_2 (Some it = Some it)) by done. cbn [owner].
    by rewrite bool_decide_eq_false_2 by congruence.
  - intros [d0 Hd0]. split.
    + cbn [createOne snd docs]. rewrite length_app. simpl. lia.
    + intros v. by rewrite !run_second_isOwner, readOne_createOne, Hd0.
Qed.

Lemma second_addItem_then_isOwner_witness :
  readOne [Field "item" 9%N] viewerOnlyItem = None
  ∧ is_Some (readOne [Field "item" 7%N] viewerOnlyItem)
  ∧ run (ByItem.isOwner 11%N 9%N) (run (ByItem.addItem 9%N 11%N None None) viewerOnlyItem).2
    = (Fulfilled (), (run (ByItem.addItem 9%N 11%N None None) viewerOnlyItem).2)
  ∧ ∀ v, (run (ByItem.isOwner v 7%N)
            (run (ByItem.addItem 7%N 11%N None None) viewerOnlyItem).2).1
         = (run (ByItem.isOwner v 7%N) viewerOnlyItem).1.
Proof.
  assert (readOne [Field "item" 9%N] viewerOnlyItem = None) as H1 by reflexivity.
  assert (is_Some (readOne [Field "item" 7%N] viewerOnlyItem)) as H2 by (by eexists).
  split; [exact H1|]. split; [exact H2|]. split.
  - apply (proj1 (second_addItem_then_isOwner viewerOnlyItem 9%N 11%N None None) H1).
  - apply (proj2 (second_addItem_then_isOwner viewerOnlyItem 7%N 11%N None None) H2).
Defined.

(** X12: in the second class, creating the record of an item that has none
    and deleting it by the item gives back the documents there were; and
    [deleteItem] for an item without record changes nothing. *)
Theorem second_addItem_then_deleteItem (s : DocCollection) (it u : ObjectId)
    (es vs : option (list ObjectId)) :
  readOne [Field "item" it] s = None →
  docs (run (ByItem.deleteItem it) (run (ByItem.addItem it u es vs) s).2).2 = docs s
  ∧ run (ByItem.deleteItem it) s
    = (Fulfilled {| msg := "Item deleted successfully!" |}, s).
Proof.
  intros Hnone. split.
  - rewrite run_second_addItem. cbv zeta. cbn [snd].
    rewrite run_second_deleteItem. cbn [snd]. unfold deleteOne.
    cbn [createOne snd docs]. unfold findDoc.
    assert (list_find (λ d, matches [Field "item" it] d = true) (docs s) = None) as Hn.
    { unfold readOne, findDoc in Hnone. by destruct (list_find _ (docs s)). }
    rewrite list_find_app_r by done. cbn [list_find].
    rewrite decide_True
      by (rewrite matches_item; by apply bool_decide_eq_true_2).
    cbn [fmap option_fmap option_map prod_map fst snd docs].
    replace (0 + length (docs s)) with (length (docs s)) by done.
    rewrite delete_middle. apply app_nil_r.
  - rewrite run_second_deleteItem. by rewrite deleteOne_None.
Qed.

Lemma second_addItem_then_deleteItem_witness :
  readOne [Field "item" 9%N] viewerOnlyItem = None
  ∧ docs (run (ByItem.deleteItem 9%N)
            (run (ByItem.addItem 9%N 11%N None None) viewerOnlyItem).2).2
    = docs viewerOnlyItem
  ∧ run (ByItem.deleteItem 9%N) viewerOnlyItem
    = (Fulfilled {| msg := "Item deleted successfully!" |}, viewerOnlyItem).
Proof.
  assert (readOne [Field "item" 9%N] viewerOnlyItem = None) as H1 by reflexivity.
  split; [exact H1|].
  apply (second_addItem_then_deleteItem viewerOnlyItem 9%N 11%N None None H1).
Defined.

(** ** What the second class never does *)

(** X13: in the second class [isViewer], [isEditor] and [canView] throw
    [NotFound] for every user, every identifier and every registry, and
    [removeAccess] always answers "already restricted" and leaves the registry
    as it is: each of them selects by [itemId], which no document has. *)
Theorem second_lookups_by_itemId_find_nothing (user itemId : ObjectId)
    (s : DocCollection) :
  run (ByItem.isViewer user itemId) s = (Rejected (notFound itemId), s)
  ∧ run (ByItem.isEditor user itemId) s = (Rejected (notFound itemId), s)
  ∧ run (ByItem.canView user itemId) s = (Rejected (notFound itemId), s)
  ∧ run (ByItem.removeAccess itemId user) s
    = (Fulfilled {| msg := toString user +:+ " is already restricted from seeing "
                           +:+ toString itemId |}, s).
Proof.
  rewrite run_second_isViewer, run_second_isEditor, run_second_canView,
    run_second_removeAccess. done.
Qed.

(** X14: in the second class [setToViewer] and [setToEditor] never answer
    "already": on an existing record each call appends the user once more,
    so that two calls leave two entries; without a record they throw
    [NotFound]. *)
Theorem second_grants_always_append (id user : ObjectId) (s : DocCollection) :
  (record id s = None →
   run (ByItem.setToViewer id user) s = (Rejected (notFound id), s)
   ∧ run (ByItem.setToEditor id user) s = (Rejected (notFound id), s))
  ∧ ∀ d, record id s = Some d →
      (let s1 := (run (ByItem.setToViewer id user) s).2 in
       let s2 := (run (ByItem.setToViewer id user) s1).2 in
       (run (ByItem.setToViewer id user) s1).1
       = Fulfilled {| msg := "Viewers successfully updated!" |}
       ∧ ∃ d2, record id s2 = Some d2
             ∧ viewers d2 = viewers d ++ [user] ++ [user]
             ∧ editors d2 = editors d)
      ∧ (let s1 := (run (ByItem.setToEditor id user) s).2 in
         let s2 := (run (ByItem.setToEditor id user) s1).2 in
         (run (ByItem.setToEditor id user) s1).1
         = Fulfilled {| msg := "Editors successfully updated!" |}
         ∧ ∃ d2, record id s2 = Some d2
               ∧ editors d2 = editors d ++ [user] ++ [user]
               ∧ viewers d2 = viewers d).
Proof.
  split.
  - intros Hnone. by rewrite run_second_setToViewer, run_second_setToEditor, Hnone.
  - intros d Hrec. split.
    + intros s1 s2.
      assert (s1 = updateOne [Field "_id" id]
                {| setEditors := None; setViewers := Some (viewers d ++ [user]) |} s)
        as Hs1 by (unfold s1; by rewrite run_second_setToViewer, Hrec).
      assert (record id s1 = Some (applyUpdate
                {| setEditors := None; setViewers := Some (viewers d ++ [user]) |}
                (clock s) d)) as Hrec1.
      { rewrite Hs1. unfold record. rewrite readOne_updateOne_id.
        fold (record id s). by rewrite Hrec. }
      unfold s2. rewrite run_second_setToViewer, Hrec1. cbn [fst snd].
      split; [done|]. unfold record. rewrite readOne_updateOne_id.
      fold (record id s1). rewrite Hrec1. simpl. eexists. split; [done|].
      simpl. by rewrite <- app_assoc.
    + intros s1 s2.
      assert (s1 = updateOne [Field "_id" id]
                {| setEditors := Some (editors d ++ [user]); setViewers := None |} s)
        as Hs1 by (unfold s1; by rewrite run_second_setToEditor, Hrec).
      assert (record id s1 = Some (applyUpdate
                {| setEditors := Some (editors d ++ [user]); setViewers := None |}
                (clock s) d)) as Hrec1.
      { rewrite Hs1. unfold record. rewrite readOne_updateOne_id.
        fold (record id s). by rewrite Hrec. }
      unfold s2. rewrite run_second_setToEditor, Hrec1. cbn [fst snd].
      split; [done|]. unfold record. rewrite readOne_updateOne_id.
      fold (record id s1). rewrite Hrec1. simpl. eexists. split; [done|].
      simpl. by rewrite <- app_assoc.
Qed.

Lemma second_grants_always_append_witness :
  record 5%N viewerOnlyItem = None
  ∧ run (ByItem.setToViewer 5%N 20%N) viewerOnlyItem
    = (Rejected (notFound 5%N), viewerOnlyItem)
  ∧ ∃ d2, record 0%N (run (ByItem.setToViewer 0%N 20%N)
                        (run (ByItem.setToViewer 0%N 20%N) viewerOnlyItem).2).2
          = Some d2
        ∧ viewers d2 = [20%N] ++ [20%N] ++ [20%N].
Proof.
  assert (record 5%N viewerOnlyItem = None) as H1 by reflexivity.
  split; [exact H1|]. split.
  - apply (proj1 (second_grants_always_append 5%N 20%N viewerOnlyItem) H1).
  - destruct (proj2 (second_grants_always_append 0%N 20%N viewerOnlyItem)
      {| _id := 0%N; item := Some 7%N; owner := 10%N; editors := [];
         viewers := [20%N]; dateCreated := 0; dateUpdated := 0 |} eq_refl)
      as [(_ & d2 & Hr & Hv & _) _].
    exists d2. by split.
Defined.

(** ** Granting and revoking the viewer role *)

(** X18: for the viewer role the round trip needs less than for the editor
    role: for an existing record and a user who is not yet a viewer, editor or
    not, [setToViewer] followed by [removeAccess] gives the record the
    viewers and editors it had, and touches no other record. *)
Theorem setToViewer_then_removeAccess (id user : ObjectId) (s : DocCollection)
    (d : ItemAccessDoc) :
  uniqueIds s →
  record id s = Some d →
  user ∉ viewers d →
  let s2 := (run (ById.removeAccess id user) (run (ById.setToViewer id user) s).2).2 in
  (∃ d2, record id s2 = Some d2
       ∧ owner d2 = owner d ∧ viewers d2 = viewers d ∧ editors d2 = editors d)
  ∧ ∀ id', id' ≠ id → record id' s2 = record id' s.
Proof.
  intros Hs Hrec Hv s2. split.
  - destruct (setToViewer_record id user s d Hrec) as (d1 & Hrec1 & Hv1 & He1 & Ho1).
    assert (uniqueIds (run (ById.setToViewer id user) s).2) as Hs1
      by (by apply uniqueIds_run).
    destruct (removeAccess_record id user _ d1 Hs1 Hrec1)
      as (d2 & Hrec2 & Ho2 & Hv2 & He2).
    fold s2 in Hrec2. exists d2. split; [done|]. split; [congruence|].
    rewrite (bool_decide_eq_false_2 (user ∈ viewers d)) in Hv1 by done.
    rewrite Hv1 in Hv2, He2.
    rewrite (bool_decide_eq_true_2 (user ∈ viewers d ++ [user])) in Hv2, He2
      by (apply elem_of_app; right; by apply list_elem_of_singleton).
    split; [|congruence]. rewrite Hv2. by apply withoutFirst_pushed.
  - intros id' Hne. unfold s2.
    pose proof (role_op_leaves_other_records (RemoveAccess id user)
                  (run (ById.setToViewer id user) s).2 id' Hne) as H2.
    pose proof (role_op_leaves_other_records (SetToViewer id user) s id' Hne) as H1.
    cbn [execRole] in H1, H2. by rewrite H2, H1.
Qed.

Lemma setToViewer_then_removeAccess_witness :
  uniqueIds viewerOnly
  ∧ record 0%N viewerOnly
    = Some {| _id := 0%N; item := None; owner := 10%N; editors := [];
              viewers := [20%N]; dateCreated := 0; dateUpdated := 0 |}
  ∧ (30%N ∉ [20%N])
  ∧ ∃ d2, record 0%N (run (ById.removeAccess 0%N 30%N)
                        (run (ById.setToViewer 0%N 30%N) viewerOnly).2).2 = Some d2
        ∧ owner d2 = 10%N ∧ viewers d2 = [20%N] ∧ editors d2 = [].
Proof.
  assert (uniqueIds viewerOnly) as Hs by (by apply (bool_decide_unpack _)).
  assert (30%N ∉ [20%N]) as Hv by (by intros ?%list_elem_of_singleton).
  split; [exact Hs|]. split; [reflexivity|]. split; [exact Hv|].
  apply (proj1 (setToViewer_then_removeAccess 0%N 30%N viewerOnly
    {| _id := 0%N; item := None; owner := 10%N; editors := [];
       viewers := [20%N]; dateCreated := 0; dateUpdated := 0 |} Hs eq_refl Hv)).
Defined.


(** ** Overlapping grants *)

Lemma reads_cases (reads : list bool) :
  reads ≡ₚ [true; true; false; false] →
  reads ∈ [[true; true; false; false]; [true; false; true; false];
           [true; false; false; true]; [false; true; true; false];
           [false; true; false; true]; [false; false; true; true]].
Proof.
  intros H. pose proof (Permutation_length H) as Hlen.
  assert (length (filter (λ b, b = true) reads) = 2) as Hcount by (by rewrite H).
  destruct reads as [|a [|b [|c [|e [|? ?]]]]]; try discriminate Hlen.
  destruct a, b, c, e; try discriminate Hcount;
    repeat first [ by left | right ].
Qed.

Lemma writes_cases (writes : list bool) :
  writes ≡ₚ [true; false] → writes = [true; false] ∨ writes = [false; true].
Proof.
  intros H. pose proof (Permutation_length H) as Hlen.
  assert (length (filter (λ b, b = true) writes) = 1) as Hcount by (by rewrite H).
  destruct writes as [|a [|b [|? ?]]]; try discriminate Hlen.
  destruct a, b; try discriminate Hcount; [by left | by right].
Qed.

(** X17: when two [setToViewer] calls for users who are not yet viewers of a
    record overlap so that both have read it before either writes, whatever
    the order of the four reads and of the two writes, both are fulfilled
    with "Viewers successfully updated!", yet the record ends with the user
    of the last write appended only: the entry of the call that wrote first
    is overwritten. *)
Theorem overlapping_setToViewer_keeps_the_last_write (id u1 u2 : ObjectId)
    (s : DocCollection) (d : ItemAccessDoc) (reads writes : list bool) :
  record id s = Some d →
  u1 ∉ viewers d →
  u2 ∉ viewers d →
  readsBeforeWrites reads writes →
  ∃ s', interleave (reads ++ writes)
          (ById.setToViewer id u1) (ById.setToViewer id u2) s
        = (Resolve {| msg := "Viewers successfully updated!" |},
           Resolve {| msg := "Viewers successfully updated!" |}, s')
      ∧ ∃ d', record id s' = Some d'
            ∧ viewers d' = viewers d ++ [lastWriter writes u1 u2]
            ∧ editors d' = editors d
            ∧ ∀ u, u = u1 ∨ u = u2 → u ≠ lastWriter writes u1 u2 → u ∉ viewers d'.
Proof.
  intros Hrec H1 H2 [Hreads Hwrites].
  pose proof Hrec as Hrec'. unfold record in Hrec'.
  assert (∀ w ub : ObjectId,
    (w = u1 ∨ w = u2) →
    ∃ d', record id (updateOne [Field "_id" id]
                       {| setEditors := None; setViewers := Some (viewers d ++ [w]) |}
                       (updateOne [Field "_id" id]
                          {| setEditors := None;
                             setViewers := Some (viewers d ++ [ub]) |} s))
          = Some d'
        ∧ viewers d' = viewers d ++ [w]
        ∧ editors d' = editors d
        ∧ ∀ u, u = u1 ∨ u = u2 → u ≠ w → u ∉ viewers d') as Hend.
  { intros w ub Hw. unfold record. rewrite !readOne_updateOne_id, Hrec'. simpl.
    eexists. split; [reflexivity|]. simpl. split; [done|]. split; [done|].
    intros u Hu Hne [Hin|Hin%list_elem_of_singleton]%elem_of_app; [|done].
    destruct Hu as [-> | ->]; done. }
  apply reads_cases in Hreads. apply writes_cases in Hwrites.
  repeat (apply elem_of_cons in Hreads as [->|Hreads]);
    [| | | | | | by apply elem_of_nil in Hreads];
    destruct Hwrites as [->| ->];
    unfold ById.setToViewer, ById.isViewer; unfold_async;
    repeat (first [ rewrite Hrec'
                  | rewrite includes_toString
                  | rewrite (bool_decide_eq_false_2 (u1 ∈ viewers d)) by done
                  | rewrite (bool_decide_eq_false_2 (u2 ∈ viewers d)) by done ];
            simpl);
    (eexists; split; [reflexivity|]);
    unfold lastWriter; simpl;
    first [ apply (Hend u2 u1); by right | apply (Hend u1 u2); by left ].
Qed.

Lemma overlapping_setToViewer_keeps_the_last_write_witness :
  record 0%N viewerOnly
  = Some {| _id := 0%N; item := None; owner := 10%N; editors := [];
            viewers := [20%N]; dateCreated := 0; dateUpdated := 0 |}
  ∧ (30%N ∉ [20%N]) ∧ (40%N ∉ [20%N])
  ∧ readsBeforeWrites [true; true; false; false] [false; true]
  ∧ ∃ s', interleave ([true; true; false; false] ++ [false; true])
            (ById.setToViewer 0%N 30%N) (ById.setToViewer 0%N 40%N) viewerOnly
          = (Resolve {| msg := "Viewers successfully updated!" |},
             Resolve {| msg := "Viewers successfully updated!" |}, s')
        ∧ ∃ d', record 0%N s' = Some d'
              ∧ viewers d' = [20%N] ++ [30%N]
              ∧ editors d' = []
              ∧ ∀ u, u = 30%N ∨ u = 40%N → u ≠ 30%N → u ∉ viewers d'.
Proof.
  assert (30%N ∉ [20%N]) as H1 by (by intros ?%list_elem_of_singleton).
  assert (40%N ∉ [20%N]) as H2 by (by intros ?%list_elem_of_singleton).
  assert (readsBeforeWrites [true; true; false; false] [false; true]) as H3.
  { split; [done|]. apply Permutation_swap. }
  split; [reflexivity|]. split; [exact H1|]. split; [exact H2|]. split; [exact H3|].
  apply (overlapping_setToViewer_keeps_the_last_write 0%N 30%N 40%N viewerOnly
    {| _id := 0%N; item := None; owner := 10%N; editors := [];
       viewers := [20%N]; dateCreated := 0; dateUpdated := 0 |}
    [true; true; false; false] [false; true] eq_refl H1 H2 H3).
Defined.

(** ** Grants in either order *)

(** X19: the two role sets are independent: on an existing record,
    [setToViewer(id, u)] and [setToEditor(id, v)] give the same viewers, the
    same editors and the same owner in whichever order they run, and neither
    undoes the other. *)
Theorem grants_commute (id u v : ObjectId) (s : DocCollection) (d : ItemAccessDoc) :
  record id s = Some d →
  let sVE := (run (ById.setToEditor id v) (run (ById.setToViewer id u) s).2).2 in
  let sEV := (run (ById.setToViewer id u) (run (ById.setToEditor id v) s).2).2 in
  ∃ dVE dEV, record id sVE = Some dVE ∧ record id sEV = Some dEV
           ∧ viewers dVE = viewers dEV ∧ editors dVE = editors dEV
           ∧ owner dVE = owner d ∧ owner dEV = owner d
           ∧ u ∈ viewers dVE ∧ v ∈ editors dVE.
Proof.
  intros Hrec sVE sEV.
  destruct (setToViewer_record id u s d Hrec) as (d1 & Hr1 & Hv1 & He1 & Ho1).
  destruct (setToEditor_record id v _ d1 Hr1) as (d12 & Hr12 & He12 & Hv12 & Ho12).
  destruct (setToEditor_record id v s d Hrec) as (d2 & Hr2 & He2 & Hv2 & Ho2).
  destruct (setToViewer_record id u _ d2 Hr2) as (d21 & Hr21 & Hv21 & He21 & Ho21).
  exists d12, d21. split; [done|]. split; [done|].
  split; [by rewrite Hv12, Hv21, Hv1, Hv2|].
  split; [by rewrite He12, He21, He1, He2|].
  split; [congruence|]. split; [congruence|]. split.
  - rewrite Hv12, Hv1. apply elem_of_granted.
  - rewrite He12. apply elem_of_granted.
Qed.

Lemma grants_commute_witness :
  record 0%N viewerOnly
  = Some {| _id := 0%N; item := None; owner := 10%N; editors := [];
            viewers := [20%N]; dateCreated := 0; dateUpdated := 0 |}
  ∧ ∃ dVE dEV,
      record 0%N (run (ById.setToEditor 0%N 40%N)
                    (run (ById.setToViewer 0%N 30%N) viewerOnly).2).2 = Some dVE
      ∧ record 0%N (run (ById.setToViewer 0%N 30%N)
                      (run (ById.setToEditor 0%N 40%N) viewerOnly).2).2 = Some dEV
      ∧ viewers dVE = viewers dEV ∧ editors dVE = editors dEV
      ∧ owner dVE = 10%N ∧ owner dEV = 10%N
      ∧ 30%N ∈ viewers dVE ∧ 40%N ∈ editors dVE.
Proof.
  split; [reflexivity|].
  apply (grants_commute 0%N 30%N 40%N viewerOnly
    {| _id := 0%N; item := None; owner := 10%N; editors := [];
       viewers := [20%N]; dateCreated := 0; dateUpdated := 0 |} eq_refl).
Defined.
